(** * google-fonts-downloader: a shallow embedding of [download_font_files]

    The script builds a bundle of font files for self-hosting: for every
    weight and every font format it asks the CSS endpoint for a style sheet,
    pulls the font URL out of it with [FONT_URL_RE], downloads the font,
    and finally rewrites the style sheets to point at the local files.

    Conventions of the embedding:
    - a Python [str] is a [string]; each [ascii] stands for one code point
      in the range 0..255, so the text handled here is Latin-1 text;
    - [bytes] are [list byte];
    - a Python [dict] is an association list in insertion order;
    - an exception is a value of [exn]; a computation that may raise and
      that talks to the network or writes to stderr lives in the monad [M]. *)

From Stdlib Require Import String Ascii List ZArith Lia Bool Arith.
From Stdlib Require Import Strings.Byte.
Import ListNotations.
Open Scope string_scope.

Set Implicit Arguments.

(* ================================================================= *)
(** ** Exceptions and results *)

Inductive exn : Type :=
| HTTPError (status_code : Z) (url : string)   (* Response.raise_for_status *)
| RequestException (msg : string)              (* raised by requests.get itself *)
| RuntimeError (msg : string)                  (* line 68 *)
| IndexError                                   (* list index / format index *)
| ValueError                                   (* str.format on a bad template *)
| UnboundLocalError (var : string)             (* a local read before assignment *)
| ReError (msg : string).                      (* re.error, bad replacement template *)

Inductive result (A : Type) : Type :=
| Ok (a : A)
| Raise (e : exn).
Arguments Ok {A} a.
Arguments Raise {A} e.

(* ================================================================= *)
(** ** The string methods the script calls *)

Definition LF : ascii := "010"%char.
Definition newline : string := String LF "".

(** [str.lower] on code points 0..255: the ASCII capitals and the Latin-1
    capitals U+00C0..U+00DE (the multiplication sign U+00D7 apart) move up
    by 32; every other code point is its own lower case. *)
Definition lower_char (c : ascii) : ascii :=
  let n := nat_of_ascii c in
  if (((65 <=? n) && (n <=? 90)) || ((192 <=? n) && (n <=? 222) && negb (n =? 215)))%nat
  then ascii_of_nat (n + 32)
  else c.

Fixpoint lower (s : string) : string :=
  match s with
  | EmptyString => EmptyString
  | String c s' => String (lower_char c) (lower s')
  end.

(** [s.replace(old, new)] for one-character [old] and [new]. *)
Fixpoint replace (old new : ascii) (s : string) : string :=
  match s with
  | EmptyString => EmptyString
  | String c s' => String (if Ascii.eqb c old then new else c) (replace old new s')
  end.

(** [sep.join(items)] *)
Definition join (sep : string) (items : list string) : string :=
  String.concat sep items.

(** [s.endswith(c)] for a one-character suffix. *)
Fixpoint endswith (s : string) (c : ascii) : bool :=
  match s with
  | EmptyString => false
  | String a EmptyString => Ascii.eqb a c
  | String _ s' => endswith s' c
  end.

(** [template.format(a, b, ...)] with automatically numbered fields.  The
    templates of the script only use the empty field [{}]; doubled braces
    are the escapes.  Any other brace is rejected. *)
Fixpoint format (template : string) (args : list string) : result string :=
  match template with
  | EmptyString => Ok EmptyString
  | String c t1 =>
      if Ascii.eqb c "{" then
        match t1 with
        | String d t2 =>
            if Ascii.eqb d "}" then
              match args with
              | a :: args' =>
                  match format t2 args' with
                  | Ok r => Ok (a ++ r)
                  | Raise e => Raise e
                  end
              | [] => Raise IndexError
              end
            else if Ascii.eqb d "{" then
              match format t2 args with
              | Ok r => Ok (String "{" r)
              | Raise e => Raise e
              end
            else Raise ValueError
        | EmptyString => Raise ValueError
        end
      else if Ascii.eqb c "}" then
        match t1 with
        | String d t2 =>
            if Ascii.eqb d "}" then
              match format t2 args with
              | Ok r => Ok (String "}" r)
              | Raise e => Raise e
              end
            else Raise ValueError
        | EmptyString => Raise ValueError
        end
      else
        match format t1 args with
        | Ok r => Ok (String c r)
        | Raise e => Raise e
        end
  end.

(** [s.rsplit(sep, maxsplit=1)] for a one-character separator: the text is
    cut at the last separator, or returned whole when there is none. *)
Fixpoint rsplit_last (sep : ascii) (s : string) : option (string * string) :=
  match s with
  | EmptyString => None
  | String a s' =>
      match rsplit_last sep s' with
      | Some (before, after) => Some (String a before, after)
      | None => if Ascii.eqb a sep then Some (EmptyString, s') else None
      end
  end.

Definition rsplit1 (sep : ascii) (s : string) : list string :=
  match rsplit_last sep s with
  | Some (before, after) => [before; after]
  | None => [s]
  end.

(** [xs[i]] on a list *)
Definition index_list {A} (xs : list A) (i : nat) : result A :=
  match nth_error xs i with
  | Some x => Ok x
  | None => Raise IndexError
  end.

(** [s.encode('utf-8')] on code points 0..255 *)
Definition utf8_char (c : ascii) : list byte :=
  let n := N_of_ascii c in
  if (n <? 128)%N then [byte_of_ascii c]
  else
    match Byte.of_N (192 + N.shiftr n 6), Byte.of_N (128 + N.land n 63) with
    | Some hi, Some lo => [hi; lo]
    | _, _ => []
    end.

Fixpoint encode_utf8 (s : string) : list byte :=
  match s with
  | EmptyString => []
  | String c s' => (utf8_char c ++ encode_utf8 s')%list
  end.

(* ================================================================= *)
(** ** Lines 41-42: [get_base_filename] *)

Definition get_base_filename (family : string) (subsets : list string) : result string :=
  format "{}-{}" [replace " " "_" (lower family); join "_" subsets].

(* ================================================================= *)
(** ** Lines 46-48: the italic expansion of the weight list *)

Definition expand_weights (weights : list string) (italic : bool) : list string :=
  if italic then
    let italic_weights := map (fun w => w ++ "i") weights in
    flat_map (fun pair => [fst pair; snd pair]) (combine weights italic_weights)
  else weights.

(* ================================================================= *)
(** ** Lines 74-77: the local file name *)

Definition weight_label (weight : string) : string :=
  if endswith weight "i" then weight ++ "talic" else weight.

Definition url_extension (font_url : string) : result string :=
  index_list (rsplit1 "." font_url) 1.

Definition local_filename (base_filename weight font_url : string) : result string :=
  match url_extension font_url with
  | Ok ext => format "{}-{}.{}" [base_filename; weight_label weight; ext]
  | Raise e => Raise e
  end.


(* ================================================================= *)
(** ** Line 18: the regular expression [FONT_URL_RE]

    The pattern only uses literal characters, one capture group and the
    lazy [.*?]; the matcher below is the backtracking search of [re] for
    that fragment.  Without [re.DOTALL] the dot matches every character
    but the line feed. *)

Inductive re_item : Type :=
| Chr (c : ascii)      (* a literal character *)
| LazyDots             (* [.*?] *)
| GroupOpen            (* [(] of group 1 *)
| GroupClose.          (* [)] of group 1 *)

Definition regex := list re_item.

Fixpoint literal (s : string) : regex :=
  match s with
  | EmptyString => []
  | String c s' => Chr c :: literal s'
  end.

(** [re.compile(r'src: url\((.*?)\).*?\n')] *)
Definition FONT_URL_RE : regex :=
  (literal "src: url(" ++ [GroupOpen; LazyDots; GroupClose; Chr ")"; LazyDots; Chr LF])%list.

(** A match object: the span of the whole match and the span of group 1,
    as positions in the searched text. *)
Record re_match : Type := mk_match {
  m_start : nat;
  m_end : nat;
  g1_start : nat;
  g1_end : nat
}.

(** [match_here re s pos go gc]: match [re] against [s], the suffix of the
    text that starts at position [pos]; [go] and [gc] are the group
    positions seen so far.  On success: the end position and the group
    positions.  A lazy [.*?] first tries the rest of the pattern and takes
    one more character only when that fails. *)
Fixpoint match_here (re : regex) (s : string) (pos go gc : nat) {struct re}
  : option (nat * nat * nat) :=
  match re with
  | [] => Some (pos, go, gc)
  | Chr c :: re' =>
      match s with
      | String a s' => if Ascii.eqb a c then match_here re' s' (S pos) go gc else None
      | EmptyString => None
      end
  | GroupOpen :: re' => match_here re' s pos pos gc
  | GroupClose :: re' => match_here re' s pos go pos
  | LazyDots :: re' =>
      (fix lazy (s : string) (pos : nat) {struct s} : option (nat * nat * nat) :=
         match match_here re' s pos go gc with
         | Some r => Some r
         | None =>
             match s with
             | String a s' => if Ascii.eqb a LF then None else lazy s' (S pos)
             | EmptyString => None
             end
         end) s pos
  end.

(** The left-to-right scan of [finditer] and [sub]: [s] is the suffix at
    [pos]; [skip] counts the characters still covered by the last match. *)
Fixpoint scan (re : regex) (s : string) (pos skip : nat) {struct s} : list re_match :=
  match s with
  | EmptyString =>
      match skip with
      | O =>
          match match_here re EmptyString pos pos pos with
          | Some (e, go, gc) => [mk_match pos e go gc]
          | None => []
          end
      | S _ => []
      end
  | String _ s' =>
      match skip with
      | S k => scan re s' (S pos) k
      | O =>
          match match_here re s pos pos pos with
          | Some (e, go, gc) => mk_match pos e go gc :: scan re s' (S pos) (e - pos - 1)
          | None => scan re s' (S pos) 0
          end
      end
  end.

(** [list(re.finditer(text))] *)
Definition finditer (re : regex) (text : string) : list re_match :=
  scan re text 0 0.

(** [text[a:b]] and [text[a:]] *)
Definition slice (a b : nat) (text : string) : string := substring a (b - a) text.
Definition slice_from (a : nat) (text : string) : string :=
  substring a (String.length text - a) text.

(** [m.group(0)] and [m.group(1)] *)
Definition group0 (m : re_match) (text : string) : string := slice (m_start m) (m_end m) text.
Definition group1 (m : re_match) (text : string) : string := slice (g1_start m) (g1_end m) text.

(** The output of [sub]: the text between the matches is copied, every
    match is replaced by its expansion. *)
Fixpoint rebuild (text : string) (ms : list re_match) (pos : nat)
    (expand : list string -> string) : string :=
  match ms with
  | [] => slice_from pos text
  | m :: ms' =>
      slice pos (m_start m) text ++ expand [group0 m text; group1 m text]
        ++ rebuild text ms' (m_end m) expand
  end.

Fixpoint contains_char (c : ascii) (s : string) : bool :=
  match s with
  | EmptyString => false
  | String a s' => Ascii.eqb a c || contains_char c s'
  end.

(* ================================================================= *)
(** ** Python's [dict]: keys in insertion order, a stored key keeps its place *)

Definition dict := list (string * list byte).

Fixpoint dict_set (d : dict) (k : string) (v : list byte) : dict :=
  match d with
  | [] => [(k, v)]
  | (k', v') :: d' =>
      if String.eqb k' k then (k', v) :: d' else (k', v') :: dict_set d' k v
  end.

Definition keys (d : dict) : list string := map fst d.

Fixpoint dict_get (d : dict) (k : string) : option (list byte) :=
  match d with
  | [] => None
  | (k', v') :: d' => if String.eqb k' k then Some v' else dict_get d' k
  end.

(** A sequence of stores [d[k] = v], in order. *)
Definition store_all (d : dict) (kvs : list (string * list byte)) : dict :=
  fold_left (fun d kv => dict_set d (fst kv) (snd kv)) kvs d.

(* ================================================================= *)
(** ** The outside world: [requests] and the template compiler of [re] *)

Record request : Type := {
  req_url : string;
  req_agent : string;                       (* the User-Agent header *)
  req_params : list (string * string)
}.

Record response : Type := {
  r_status_code : Z;
  r_url : string;
  r_text : string;
  r_content : list byte
}.

(** What [requests.get] does with a request: it returns a response, or it
    raises on its own account (no connection, a URL it cannot use). *)
Inductive answer : Type :=
| Answered (r : response)
| Failed (msg : string).

(** The two ways in which the template compiler of [re] rejects a
    replacement string: [re.error] (a bad escape, a group number out of
    range, a malformed group reference) and [IndexError] (a reference to a
    group name the pattern does not have). *)
Inductive template_error : Type :=
| BadEscape (msg : string)
| UnknownGroup (name : string).

Definition template_exn (err : template_error) : exn :=
  match err with
  | BadEscape msg => ReError msg
  | UnknownGroup _ => IndexError
  end.

(** What the template compiler of [re] does with a replacement string: it
    yields the expansion as a function of the groups of a match, or it
    rejects the string. *)
Inductive template : Type :=
| Expands (expand : list string -> string)
| BadTemplate (err : template_error).

(** What the script runs against.  [http_get] answers a request in a state
    of the world and leaves a new state.  [compile_repl] is consulted for
    the replacement strings that contain a backslash. *)
Record platform : Type := {
  World : Type;
  http_get : request -> World -> answer * World;
  compile_repl : string -> template
}.

(** [pattern.sub(repl, text)].  A replacement without a backslash is taken
    literally; any other goes through the template compiler first. *)
Definition re_sub (P : platform) (re : regex) (repl text : string) : result string :=
  let compiled :=
    if contains_char "\" repl then compile_repl P repl
    else Expands (fun _ : list string => repl) in
  match compiled with
  | Expands expand => Ok (rebuild text (finditer re text) 0 expand)
  | BadTemplate err => Raise (template_exn err)
  end.

(* ================================================================= *)
(** ** The monad of the script: world, stderr and exceptions *)

Section Program.

Variable P : platform.

Record state : Type := {
  world : World P;
  stderr : list string
}.

Definition M (A : Type) : Type := state -> result A * state.

Definition ret {A} (a : A) : M A := fun s => (Ok a, s).

Definition raise {A} (e : exn) : M A := fun s => (Raise e, s).

Definition bind {A B} (c : M A) (k : A -> M B) : M B :=
  fun s =>
    match c s with
    | (Ok a, s') => k a s'
    | (Raise e, s') => (Raise e, s')
    end.

Definition lift {A} (r : result A) : M A := fun s => (r, s).

Notation "x <- c ;; k" := (bind c (fun x => k))
  (at level 61, c at next level, right associativity).
Notation "c ;;; k" := (bind c (fun _ => k))
  (at level 61, right associativity).

(** [for x in xs: body], threading the local variables *)
Fixpoint for_each {X L} (xs : list X) (body : X -> L -> M L) (l : L) : M L :=
  match xs with
  | [] => ret l
  | x :: xs' => l' <- body x l ;; for_each xs' body l'
  end.

(** [requests.get(url, headers={'User-Agent': agent}, params=params)] *)
Definition requests_get (req : request) : M response :=
  fun s =>
    let (a, w) := http_get P req (world s) in
    let s' := {| world := w; stderr := stderr s |} in
    match a with
    | Answered r => (Ok r, s')
    | Failed msg => (Raise (RequestException msg), s')
    end.

(** [r.raise_for_status()]: the 4xx and 5xx codes raise. *)
Definition is_failure_status (code : Z) : bool :=
  ((400 <=? code) && (code <? 600))%Z.

Definition raise_for_status (r : response) : M unit :=
  if is_failure_status (r_status_code r)
  then raise (HTTPError (r_status_code r) (r_url r))
  else ret tt.

(** [print(line, file=sys.stderr)] *)
Definition print_stderr (line : string) : M unit :=
  fun s => (Ok tt, {| world := world s; stderr := (stderr s ++ [line])%list |}).

(* ================================================================= *)
(** ** Lines 14-23: the constants *)

Definition GOOGLE_FONTS_API : string := "https://fonts.googleapis.com/css".
Definition WOFF_USER_AGENT : string :=
  "Mozilla/5.0 (Windows NT 6.1; WOW64; rv:27.0) Gecko/20100101 Firefox/27.0".
Definition WOFF2_USER_AGENT : string :=
  "Mozilla/5.0 (Windows NT 6.3; rv:39.0) Gecko/20100101 Firefox/39.0".

Record font_format : Type := {
  format_name : string;     (* the entry 'format' *)
  agent : string            (* the entry 'agent' *)
}.

Definition FONT_FORMATS : list font_format :=
  [ {| format_name := "woff"; agent := WOFF_USER_AGENT |};
    {| format_name := "woff2"; agent := WOFF2_USER_AGENT |} ].

(* ================================================================= *)
(** ** Lines 45-89: [download_font_files] *)

(** The local variables of the function that the loops update. *)
Record locals : Type := {
  css : list string;
  files : dict;
  font_format_filenames : list (font_format * string);
  css_part : option string         (* unbound until line 63 runs *)
}.

(** Lines 57-79, the body of the loop over [FONT_FORMATS]. *)
Definition css_request (fam : string) (subsets : list string) (fmt : font_format)
  : request :=
  {| req_url := GOOGLE_FONTS_API;
     req_agent := agent fmt;
     req_params := [("family", fam); ("subset", join "," subsets)] |}.

Definition font_request (font_url : string) (fmt : font_format) : request :=
  {| req_url := font_url; req_agent := agent fmt; req_params := [] |}.

Definition fetch_format (family : string) (subsets : list string)
    (base_filename weight : string) (fmt : font_format) (l : locals) : M locals :=
  fam <- lift (format "{}:{}" [family; weight]) ;;
  r <- requests_get (css_request fam subsets fmt) ;;
  raise_for_status r ;;;
  print_stderr (r_url r) ;;;
  let css_part' := r_text r in
  let url_matches := finditer FONT_URL_RE (r_text r) in
  if negb (List.length url_matches =? 1)%nat then
    msg <- lift (format "Failed to query google fonts for URL: {}" [r_url r]) ;;
    raise (RuntimeError msg)
  else
    m <- lift (index_list url_matches 0) ;;
    let font_url := group1 m (r_text r) in
    r' <- requests_get (font_request font_url fmt) ;;
    raise_for_status r' ;;;
    print_stderr (r_url r') ;;;
    filename <- lift (local_filename base_filename weight font_url) ;;
    ret {| css := css l;
           files := dict_set (files l) filename (r_content r');
           font_format_filenames :=
             (font_format_filenames l ++ [(fmt, filename)])%list;
           css_part := Some css_part' |}.

(** [[f(x) for x in xs]] for an [f] that may raise *)
Fixpoint map_result {A B} (f : A -> result B) (xs : list A) : result (list B) :=
  match xs with
  | [] => Ok []
  | x :: xs' =>
      match f x with
      | Ok y =>
          match map_result f xs' with
          | Ok ys => Ok (y :: ys)
          | Raise e => Raise e
          end
      | Raise e => Raise e
      end
  end.

(** Lines 82-84: the [src] declaration for the files of one weight. *)
Definition source_entry (f : font_format * string) : result string :=
  format "url('{}') format('{}')" [snd f; format_name (fst f)].

Definition build_src (recorded : list (font_format * string)) : result string :=
  match map_result source_entry (rev recorded) with
  | Ok sources => format ("src: {};" ++ newline) [join ("," ++ newline ++ "       ") sources]
  | Raise e => Raise e
  end.

(** Line 55: [font_format_filenames = []] *)
Definition start_weight (l : locals) : locals :=
  {| css := css l; files := files l;
     font_format_filenames := []; css_part := css_part l |}.

(** Lines 55-85, the body of the loop over the weights. *)
Definition process_weight (family : string) (subsets : list string)
    (base_filename weight : string) (l : locals) : M locals :=
  let l0 := start_weight l in
  l1 <- for_each FONT_FORMATS (fetch_format family subsets base_filename weight) l0 ;;
  new_src <- lift (build_src (font_format_filenames l1)) ;;
  css_text <- match css_part l1 with
              | Some c => ret c
              | None => raise (UnboundLocalError "css_part")
              end ;;
  snippet <- lift (re_sub P FONT_URL_RE new_src css_text) ;;
  ret {| css := (css l1 ++ [snippet])%list; files := files l1;
         font_format_filenames := font_format_filenames l1;
         css_part := css_part l1 |}.

Definition initial_locals : locals :=
  {| css := []; files := []; font_format_filenames := []; css_part := None |}.

Definition download_font_files (family : string) (weights subsets : list string)
    (italic : bool) : M dict :=
  let weights := expand_weights weights italic in
  base_filename <- lift (get_base_filename family subsets) ;;
  l <- for_each weights (process_weight family subsets base_filename) initial_locals ;;
  ret (dict_set (files l) (base_filename ++ ".css")
                (encode_utf8 (join newline (css l)))).

End Program.

Arguments ret {P A} a.
Arguments raise {P A} e.
Arguments lift {P A} r.
Arguments initial_locals : clear implicits.

Definition woff : font_format := {| format_name := "woff"; agent := WOFF_USER_AGENT |}.
Definition woff2 : font_format := {| format_name := "woff2"; agent := WOFF2_USER_AGENT |}.

(** The run of [download_font_files] from the state [s0] arrives, with the
    locals [l] and in the state [s], at the iteration of the inner loop for
    the weight [w] and the format [fmt]: the weights before [w] and, for
    [w], the formats before [fmt] went through without an exception. *)
Definition arrives_at {P : platform} (family : string) (weights subsets : list string)
    (italic : bool) (s0 : state P) (w : string) (fmt : font_format)
    (l : locals) (s : state P) : Prop :=
  exists (ws1 ws2 : list string) (fs1 fs2 : list font_format) (lw : locals) (sw : state P),
    expand_weights weights italic = (ws1 ++ w :: ws2)%list /\
    FONT_FORMATS = (fs1 ++ fmt :: fs2)%list /\
    (exists base,
        get_base_filename family subsets = Ok base /\
        for_each ws1 (process_weight family subsets base) initial_locals s0 = (Ok lw, sw) /\
        for_each fs1 (fetch_format family subsets base w) (start_weight lw) sw = (Ok l, s)).

(** The state after a request was answered and the lines [printed] went
    to stderr. *)
Definition after {P : platform} (s : state P) (w : World P) (printed : list string)
  : state P :=
  {| world := w; stderr := (stderr s ++ printed)%list |}.

(** The name of a font file: base, dash, weight label, dot, extension. *)
Definition font_key (base w ext : string) : string :=
  base ++ "-" ++ weight_label w ++ "." ++ ext.

(** The entry [kv] of the mapping is a font of the weight [w] downloaded
    for the format [fmt]: its value is the content of a response to a font
    request sent with the User-Agent of [fmt], its key is made of the
    extension of the requested URL. *)
Definition downloaded {P : platform} (fmt : font_format) (base w : string)
    (kv : string * list byte) : Prop :=
  exists (font_url ext : string) (wd : World P) (r : response) (wd' : World P),
    http_get P (font_request font_url fmt) wd = (Answered r, wd') /\
    url_extension font_url = Ok ext /\
    kv = (font_key base w ext, r_content r).

(** What one weight stores: its woff file, then its woff2 file. *)
Definition weight_stores {P : platform} (base w : string)
    (per : list (string * list byte)) : Prop :=
  exists kv1 kv2,
    downloaded (P := P) woff base w kv1 /\
    downloaded (P := P) woff2 base w kv2 /\
    per = [kv1; kv2].

(** The three upstream failures of one iteration of the inner loop, for the
    weight [w] and the format [fmt] in the state [s], each with the
    exception it raises and the state it leaves: a failure status from the
    CSS endpoint, a style sheet in which the pattern does not match exactly
    once, a failure status from the font download. *)
Inductive upstream_failure {P : platform} (family : string) (subsets : list string)
    (w : string) (fmt : font_format) (s : state P) : exn -> state P -> Prop :=
| css_status_failure (r : response) (wd : World P) :
    http_get P (css_request (family ++ ":" ++ w) subsets fmt) (world s) = (Answered r, wd) ->
    is_failure_status (r_status_code r) = true ->
    upstream_failure family subsets w fmt s
      (HTTPError (r_status_code r) (r_url r)) (after s wd [])
| pattern_failure (r : response) (wd : World P) :
    http_get P (css_request (family ++ ":" ++ w) subsets fmt) (world s) = (Answered r, wd) ->
    is_failure_status (r_status_code r) = false ->
    List.length (finditer FONT_URL_RE (r_text r)) <> 1 ->
    upstream_failure family subsets w fmt s
      (RuntimeError ("Failed to query google fonts for URL: " ++ r_url r))
      (after s wd [r_url r])
| font_status_failure (r : response) (wd : World P) (m : re_match)
    (r' : response) (wd' : World P) :
    http_get P (css_request (family ++ ":" ++ w) subsets fmt) (world s) = (Answered r, wd) ->
    is_failure_status (r_status_code r) = false ->
    finditer FONT_URL_RE (r_text r) = [m] ->
    http_get P (font_request (group1 m (r_text r)) fmt) wd = (Answered r', wd') ->
    is_failure_status (r_status_code r') = true ->
    upstream_failure family subsets w fmt s
      (HTTPError (r_status_code r') (r_url r')) (after s wd' [r_url r]).

(* ================================================================= *)
(** ** The properties in the words of the specification *)

Module Spec.

(** The family lower-cased with spaces replaced by underscores. *)
Fixpoint family_part (family : string) : string :=
  match family with
  | EmptyString => EmptyString
  | String c rest =>
      let c' := lower_char c in
      String (if Ascii.eqb c' " " then "_"%char else c') (family_part rest)
  end.

(** The subsets joined with underscores. *)
Fixpoint subsets_part (subsets : list string) : string :=
  match subsets with
  | [] => EmptyString
  | [s] => s
  | s :: rest => s ++ "_" ++ subsets_part rest
  end.

Definition base_filename (family : string) (subsets : list string) : string :=
  family_part family ++ "-" ++ subsets_part subsets.

(** The interleaving (w1, w1+"i", w2, w2+"i", ...). *)
Fixpoint interleave_italic (W : list string) : list string :=
  match W with
  | [] => []
  | w :: rest => w :: (w ++ "i") :: interleave_italic rest
  end.

(** The text of [s] after its last [c], and all of [s] when it has none. *)
Fixpoint after_last (c : ascii) (s : string) : string :=
  match s with
  | EmptyString => EmptyString
  | String a rest =>
      if contains_char c rest then after_last c rest
      else if Ascii.eqb a c then rest else s
  end.

(** A URL without its query and its fragment: the text before the first
    question mark or number sign. *)
Fixpoint without_query_fragment (url : string) : string :=
  match url with
  | EmptyString => EmptyString
  | String a rest =>
      if Ascii.eqb a "?" || Ascii.eqb a "#" then EmptyString
      else String a (without_query_fragment rest)
  end.

(** What follows the scheme: the text after the first colon, when no slash
    comes before it. *)
Fixpoint after_colon (s : string) : option string :=
  match s with
  | EmptyString => None
  | String a rest =>
      if Ascii.eqb a ":" then Some rest
      else if Ascii.eqb a "/" then None
      else after_colon rest
  end.

Definition without_scheme (s : string) : string :=
  match after_colon s with
  | Some rest => rest
  | None => s
  end.

(** What follows the authority: when the text starts with two slashes, the
    text from the next slash on. *)
Fixpoint from_slash (s : string) : string :=
  match s with
  | EmptyString => EmptyString
  | String a rest => if Ascii.eqb a "/" then s else from_slash rest
  end.

Definition without_authority (s : string) : string :=
  match s with
  | String a (String b rest) =>
      if Ascii.eqb a "/" && Ascii.eqb b "/" then from_slash rest else s
  | _ => s
  end.

(** The path of a URL: scheme, authority, query and fragment set aside. *)
Definition url_path (url : string) : string :=
  without_authority (without_scheme (without_query_fragment url)).

(** The last path segment of a URL: what follows the last slash of its
    path. *)
Definition last_path_segment (url : string) : string := after_last "/" (url_path url).

(** The suffix after the final dot of a segment, when it has a dot. *)
Definition suffix_after_final_dot (segment : string) : option string :=
  if contains_char "." segment then Some (after_last "." segment) else None.

(** One source of a [src] declaration: url('<localFilename>')
    format('<formatIdentifier>'). *)
Definition entry_text (f : font_format * string) : string :=
  "url('" ++ snd f ++ "') format('" ++ format_name (fst f) ++ "')".

(** The [src] declaration for the recorded files, last recorded first. *)
Definition src_text (recorded : list (font_format * string)) : string :=
  "src: " ++ join ("," ++ newline ++ "       ") (map entry_text (rev recorded))
    ++ ";" ++ newline.

(** The two kinds of failure the specification calls an upstream error: a
    response with a failure status and a style sheet without exactly one
    font URL. *)
Definition is_upstream_error (e : exn) : bool :=
  match e with
  | HTTPError _ _ => true
  | RuntimeError _ => true
  | _ => false
  end.

(** [needle in s]: the text [needle] occurs in [s]. *)
Fixpoint contains_text (needle s : string) : bool :=
  String.prefix needle s ||
  match s with
  | EmptyString => false
  | String _ rest => contains_text needle rest
  end.

(** The keys of a dict after the keys [ks] were stored in that order,
    starting from the keys [acc]: a key stored again keeps its place. *)
Fixpoint keys_after (acc ks : list string) : list string :=
  match ks with
  | [] => acc
  | k :: ks' =>
      keys_after (if existsb (String.eqb k) acc then acc else (acc ++ [k])%list) ks'
  end.

End Spec.

(* ================================================================= *)
(** ** A scripted platform, for running the model on concrete inputs *)

Module Mock.

Record config : Type := {
  css_status : Z;
  css_body : string -> string;       (* the style sheet, by User-Agent *)
  font_status : Z
}.

(** The world is the number of requests answered so far. *)
Definition get (c : config) (req : request) (n : nat) : answer * nat :=
  if String.eqb (req_url req) "https://fonts.googleapis.com/css" then
    (Answered {| r_status_code := css_status c;
                 r_url := req_url req ++ "?n=" ++ String (ascii_of_nat (48 + n)) "";
                 r_text := css_body c (req_agent req);
                 r_content := [] |}, S n)
  else
    (Answered {| r_status_code := font_status c;
                 r_url := req_url req;
                 r_text := EmptyString;
                 r_content := list_byte_of_string (req_url req) |}, S n).

Definition platform_of (c : config) : platform :=
  {| World := nat;
     http_get := get c;
     compile_repl := fun _ => BadTemplate (BadEscape "bad escape") |}.

Definition start (c : config) : state (platform_of c) :=
  {| world := 0 : World (platform_of c); stderr := [] |}.

Definition face (font_url fmt : string) : string :=
  "@font-face {" ++ newline ++
  "  font-family: 'Open Sans';" ++ newline ++
  "  src: url(" ++ font_url ++ ") format('" ++ fmt ++ "');" ++ newline ++
  "}" ++ newline.

Definition by_agent (woff woff2 : string) (agent : string) : string :=
  if String.eqb agent "Mozilla/5.0 (Windows NT 6.1; WOW64; rv:27.0) Gecko/20100101 Firefox/27.0"
  then woff else woff2.

(** Every request succeeds; one face per style sheet. *)
Definition good : config :=
  {| css_status := 200;
     css_body := by_agent (face "https://fonts.example/f700.woff" "woff")
                          (face "https://fonts.example/f700.woff2" "woff2");
     font_status := 200 |}.

(** The CSS endpoint answers 404. *)
Definition css_404 : config :=
  {| css_status := 404; css_body := css_body good; font_status := 200 |}.

(** The font download answers 500. *)
Definition font_500 : config :=
  {| css_status := 200; css_body := css_body good; font_status := 500 |}.

(** The style sheet for woff2 has two faces, the one for woff a single one. *)
Definition two_faces : config :=
  {| css_status := 200;
     css_body := by_agent (face "https://fonts.example/f700.woff" "woff")
                          (face "https://fonts.example/a.woff2" "woff2" ++
                           face "https://fonts.example/b.woff2" "woff2");
     font_status := 200 |}.

(** The style sheet names no font at all. *)
Definition no_face : config :=
  {| css_status := 200; css_body := fun _ => "/* no such family */" ++ newline;
     font_status := 200 |}.

(** The font URL has no dot. *)
Definition dotless : config :=
  {| css_status := 200;
     css_body := fun _ => face "https://localhost/font" "woff";
     font_status := 200 |}.

(** Both style sheets name a font with the extension ttf. *)
Definition same_extension : config :=
  {| css_status := 200;
     css_body := by_agent (face "https://fonts.example/a.ttf" "truetype")
                          (face "https://fonts.example/b.ttf" "truetype");
     font_status := 200 |}.

(** The run for "Open Sans", weight 700, subset latin, when all goes well. *)
Definition good_bundle : dict :=
  Eval vm_compute in
    match fst (download_font_files "Open Sans" ["700"] ["latin"] false (start good)) with
    | Ok bundle => bundle
    | Raise _ => []
    end.

Definition good_final : state (platform_of good) :=
  Eval vm_compute in
    snd (download_font_files "Open Sans" ["700"] ["latin"] false (start good)).

(** The locals after the iteration for weight 700 with the base name "b". *)
Definition good_weight : locals :=
  Eval vm_compute in
    match fst (process_weight "Open Sans" ["latin"] "b" "700" initial_locals (start good)) with
    | Ok l => l
    | Raise _ => initial_locals
    end.

(** The style sheet of [face] once it points at the two local files. *)
Definition rewritten (n_woff n_woff2 : string) : string :=
  "@font-face {" ++ newline ++
  "  font-family: 'Open Sans';" ++ newline ++
  "  src: url('" ++ n_woff2 ++ "') format('woff2')," ++ newline ++
  "       url('" ++ n_woff ++ "') format('woff');" ++ newline ++
  "}" ++ newline.

(** The same scripted platform with a template compiler that accepts every
    replacement and expands it to itself. *)
Definition lenient_platform_of (c : config) : platform :=
  {| World := nat;
     http_get := get c;
     compile_repl := fun repl => Expands (fun _ => repl) |}.

Definition lenient_start (c : config) : state (lenient_platform_of c) :=
  {| world := 0 : World (lenient_platform_of c); stderr := [] |}.

End Mock.

(* ================================================================= *)
(** ** Lines 92-101: [create_zip] and [main]

    The [zipfile] module is a parameter, as [requests] is: a file system
    and the three calls the script makes on it, [ZipFile(output, 'w')],
    [writestr] and the [close] of [__exit__].  Each of them may raise an
    exception of the module (an [OSError] for a path that cannot be
    written, a [struct.error] for a member name of more than 65535 bytes),
    and each leaves the file system in a state of its choice, also when it
    raises.  One archive is open at a time, so the [ZipFile] object is part
    of that state.  [parse_args] is the argument parser of [argparse] and is
    not part of the embedding: [main] takes the namespace it returns. *)

Record zip_library : Type := {
  Disk : Type;
  zip_exn : Type;
  zip_open : string -> Disk -> option zip_exn * Disk;
  zip_writestr : string -> list byte -> Disk -> option zip_exn * Disk;
  zip_close : Disk -> option zip_exn * Disk
}.

(** How a call without a value ends: it returns, or it is left by an
    exception of the script and of the libraries above, or by one of
    [zipfile]. *)
Inductive outcome (E : Type) : Type :=
| Returned
| Raised (e : exn)
| ZipRaised (z : E).

Arguments Returned {E}.
Arguments Raised {E} e.
Arguments ZipRaised {E} z.

(** Lines 94-95: the loop over [files.items()], which ends at the first
    call that raises. *)
Fixpoint write_items {Z : zip_library} (dirname : string) (items : dict) (d : Disk Z)
  : outcome (zip_exn Z) * Disk Z :=
  match items with
  | [] => (Returned, d)
  | (filename, contents) :: rest =>
      match format "{}/{}" [dirname; filename] with
      | Ok name =>
          match zip_writestr Z name contents d with
          | (None, d') => write_items dirname rest d'
          | (Some z, d') => (ZipRaised z, d')
          end
      | Raise e => (Raised e, d)
      end
  end.

(** Lines 92-95.  When the archive cannot be opened nothing else happens.
    Once it is open, [__exit__] closes it however the block ends; it does
    not swallow the exception of the block, and when [close] raises, its
    exception is the one that leaves the statement. *)
Definition create_zip {Z : zip_library} (output dirname : string) (files : dict)
    (d : Disk Z) : outcome (zip_exn Z) * Disk Z :=
  match zip_open Z output d with
  | (Some z, d1) => (ZipRaised z, d1)
  | (None, d1) =>
      let (r, d2) := write_items dirname files d1 in
      match zip_close Z d2 with
      | (None, d3) => (r, d3)
      | (Some z, d3) => (ZipRaised z, d3)
      end
  end.

(** The namespace returned by [parse_args]. *)
Record options : Type := {
  opt_output : string;
  opt_family : string;
  opt_italic : bool;
  opt_weight : list string;
  opt_subset : list string
}.

(** Lines 98-101, from the parsed options on. *)
Definition main {P : platform} {Z : zip_library} (o : options) (s : state P) (d : Disk Z)
  : outcome (zip_exn Z) * state P * Disk Z :=
  match download_font_files (opt_family o) (opt_weight o) (opt_subset o) (opt_italic o) s with
  | (Ok files, s') =>
      match get_base_filename (opt_family o) (opt_subset o) with
      | Ok dirname =>
          let (r, d') := create_zip (opt_output o) dirname files d in
          (r, s', d')
      | Raise e => (Raised e, s', d)
      end
  | (Raise e, s') => (Raised e, s', d)
  end.

(** The calls made on [zipfile], and a library that also keeps their list. *)
Inductive zip_call : Type :=
| ZOpen (path : string)
| ZWrite (name : string) (contents : list byte)
| ZClose.

Definition recording (Z : zip_library) : zip_library :=
  {| Disk := Disk Z * list zip_call;
     zip_exn := zip_exn Z;
     zip_open := fun path dl =>
       let (r, d') := zip_open Z path (fst dl) in
       (r, (d', (snd dl ++ [ZOpen path])%list));
     zip_writestr := fun name contents dl =>
       let (r, d') := zip_writestr Z name contents (fst dl) in
       (r, (d', (snd dl ++ [ZWrite name contents])%list));
     zip_close := fun dl =>
       let (r, d') := zip_close Z (fst dl) in
       (r, (d', (snd dl ++ [ZClose])%list)) |}.

Definition calls {Z : zip_library} (d : Disk (recording Z)) : list zip_call :=
  snd (d : Disk Z * list zip_call).

Definition under {Z : zip_library} (d : Disk (recording Z)) : Disk Z :=
  fst (d : Disk Z * list zip_call).

(** The call that writes an entry of the mapping below [dirname]. *)
Definition write_of (dirname : string) (kv : string * list byte) : zip_call :=
  ZWrite (dirname ++ "/" ++ fst kv) (snd kv).

(** A library for running the model: the disk holds archives by path, an
    archive being the list of its members; opening one for writing empties
    it; [writestr] refuses a member name of more than [limit] characters,
    as [zipfile] refuses one of more than 65535 bytes, and a write to no
    open archive. *)
Module MockZip.

Definition archive := list (string * list byte).

Record disk : Type := {
  archives : list (string * archive);
  opened : option string
}.

Inductive error : Type :=
| StructError
| ClosedArchive.

Fixpoint put (d : list (string * archive)) (path : string) (a : archive)
  : list (string * archive) :=
  match d with
  | [] => [(path, a)]
  | (p, a') :: d' =>
      if String.eqb p path then (p, a) :: d' else (p, a') :: put d' path a
  end.

Fixpoint get (d : list (string * archive)) (path : string) : archive :=
  match d with
  | [] => []
  | (p, a) :: d' => if String.eqb p path then a else get d' path
  end.

Definition library (limit : nat) : zip_library :=
  {| Disk := disk;
     zip_exn := error;
     zip_open := fun path d =>
       (None, {| archives := put (archives d) path []; opened := Some path |});
     zip_writestr := fun name contents d =>
       match opened d with
       | None => (Some ClosedArchive, d)
       | Some path =>
           if (limit <? String.length name)%nat then (Some StructError, d)
           else (None, {| archives := put (archives d) path
                                          (get (archives d) path ++ [(name, contents)])%list;
                          opened := opened d |})
       end;
     zip_close := fun d => (None, {| archives := archives d; opened := None |}) |}.

(** The longest member name [zipfile] takes. *)
Definition name_limit : nat := 2 ^ 16 - 1.

Definition old_disk : disk :=
  {| archives := [("fonts.zip", [("old.txt", [])]); ("notes.zip", [])]; opened := None |}.

Definition args : options :=
  {| opt_output := "fonts.zip"; opt_family := "Open Sans"; opt_italic := false;
     opt_weight := ["700"]; opt_subset := ["latin"] |}.

End MockZip.

(* ================================================================= *)
(** ** Auxiliary notions for the properties of whole runs *)

(** A platform that also keeps the list of the requests it was sent. *)
Definition logging (P : platform) : platform :=
  {| World := World P * list request;
     http_get := fun req wl =>
       let (a, w') := http_get P req (fst wl) in
       (a, (w', (snd wl ++ [req])%list));
     compile_repl := compile_repl P |}.

Definition request_log {P : platform} (s : state (logging P)) : list request :=
  snd (world s : World P * list request).

(** The four requests of a weight whose two font URLs are [u1] and [u2]. *)
Definition requests_of (family : string) (subsets : list string)
    (wu : string * (string * string)) : list request :=
  let w := fst wu in
  [ css_request (family ++ ":" ++ w) subsets woff;
    font_request (fst (snd wu)) woff;
    css_request (family ++ ":" ++ w) subsets woff2;
    font_request (snd (snd wu)) woff2 ].

(** What one iteration of the inner loop obtained: the response with the
    style sheet, the font URL found in it, the extension of that URL and
    the response with the font. *)
Record fetch : Type := {
  f_css : response;
  f_url : string;
  f_ext : string;
  f_font : response
}.

(** From the state [s], the iteration for the weight [w] and the format
    [fmt] obtained [f] and left the state [s']: both requests were answered
    with a status that is no failure, the pattern matched the style sheet
    exactly once, and the font URL has an extension. *)
Definition fetched {P : platform} (family : string) (subsets : list string)
    (w : string) (fmt : font_format) (s : state P) (f : fetch) (s' : state P) : Prop :=
  exists (wd : World P) (m : re_match) (wd' : World P),
    http_get P (css_request (family ++ ":" ++ w) subsets fmt) (world s)
    = (Answered (f_css f), wd) /\
    is_failure_status (r_status_code (f_css f)) = false /\
    finditer FONT_URL_RE (r_text (f_css f)) = [m] /\
    f_url f = group1 m (r_text (f_css f)) /\
    http_get P (font_request (f_url f) fmt) wd = (Answered (f_font f), wd') /\
    is_failure_status (r_status_code (f_font f)) = false /\
    url_extension (f_url f) = Ok (f_ext f) /\
    s' = after s wd' [r_url (f_css f); r_url (f_font f)].

(** The two entries a weight stores for what it obtained for woff and for
    woff2, and the snippet it adds to the CSS. *)
Definition entries_of (base w : string) (ff : fetch * fetch)
  : list (string * list byte) :=
  [ (font_key base w (f_ext (fst ff)), r_content (f_font (fst ff)));
    (font_key base w (f_ext (snd ff)), r_content (f_font (snd ff))) ].

Definition snippet_of (P : platform) (base w : string) (ff : fetch * fetch)
  : result string :=
  re_sub P FONT_URL_RE
    (Spec.src_text [ (woff, font_key base w (f_ext (fst ff)));
                     (woff2, font_key base w (f_ext (snd ff))) ])
    (r_text (f_css (snd ff))).

(** The loop over the weights [ws] went through from [s] to [s']: what
    every weight obtained, and the snippet it added. *)
Inductive run_weights {P : platform} (family : string) (subsets : list string)
    (base : string)
  : list string -> state P -> list (fetch * fetch) -> list string -> state P -> Prop :=
| run_done (s : state P) : run_weights family subsets base [] s [] [] s
| run_weight (w : string) (ws : list string) (s s1 s2 s' : state P)
    (f1 f2 : fetch) (snippet : string)
    (fs : list (fetch * fetch)) (snippets : list string) :
    fetched family subsets w woff s f1 s1 ->
    fetched family subsets w woff2 s1 f2 s2 ->
    snippet_of P base w (f1, f2) = Ok snippet ->
    run_weights family subsets base ws s2 fs snippets s' ->
    run_weights family subsets base (w :: ws) s ((f1, f2) :: fs) (snippet :: snippets) s'.

(** All the entries stored by the weights [ws], in order. *)
Fixpoint all_entries (base : string) (ws : list string) (fs : list (fetch * fetch))
  : list (string * list byte) :=
  match ws, fs with
  | w :: ws', ff :: fs' => (entries_of base w ff ++ all_entries base ws' fs')%list
  | _, _ => []
  end.

(** The lines a weight prints for what it obtained, and the two font URLs
    it found. *)
Definition urls_of (ff : fetch * fetch) : list string :=
  [ r_url (f_css (fst ff)); r_url (f_font (fst ff));
    r_url (f_css (snd ff)); r_url (f_font (snd ff)) ].

Definition font_urls_of (ff : fetch * fetch) : string * string :=
  (f_url (fst ff), f_url (snd ff)).

(** The font URL of [f] is the one its style sheet names: group 1 of the
    only match of the pattern in the text of the response. *)
Definition names_font (f : fetch) : Prop :=
  exists m : re_match,
    finditer FONT_URL_RE (r_text (f_css f)) = [m] /\
    f_url f = group1 m (r_text (f_css f)).

(** The state of the platform under the logging one. *)
Definition erase {P : platform} (s : state (logging P)) : state P :=
  {| world := fst (world s : World P * list request); stderr := stderr s |}.

(** From [s] to [s'] at most [k] lines were added to stderr, none was
    removed, and exactly [k] were added when the result [r] is a value. *)
Definition prints {P : platform} {A : Type} (s s' : state P) (r : result A) (k : nat)
  : Prop :=
  exists lines,
    stderr s' = (stderr s ++ lines)%list /\
    List.length lines <= k /\
    (forall a, r = Ok a -> List.length lines = k).

(** All the ways in which one iteration of the inner loop raises, for the
    weight [w] and the format [fmt] in the state [s]: [requests.get] raises
    for the style sheet or for the font, one of the three upstream failures
    occurs, or the font URL has no dot and index 1 of line 77 is out of
    range. *)
Inductive iteration_failure {P : platform} (family : string) (subsets : list string)
    (w : string) (fmt : font_format) (s : state P) : exn -> state P -> Prop :=
| css_request_raises (msg : string) (wd : World P) :
    http_get P (css_request (family ++ ":" ++ w) subsets fmt) (world s) = (Failed msg, wd) ->
    iteration_failure family subsets w fmt s (RequestException msg) (after s wd [])
| upstream_fails (e : exn) (s' : state P) :
    upstream_failure family subsets w fmt s e s' ->
    iteration_failure family subsets w fmt s e s'
| font_request_raises (r : response) (wd : World P) (m : re_match)
    (msg : string) (wd' : World P) :
    http_get P (css_request (family ++ ":" ++ w) subsets fmt) (world s) = (Answered r, wd) ->
    is_failure_status (r_status_code r) = false ->
    finditer FONT_URL_RE (r_text r) = [m] ->
    http_get P (font_request (group1 m (r_text r)) fmt) wd = (Failed msg, wd') ->
    iteration_failure family subsets w fmt s (RequestException msg) (after s wd' [r_url r])
| no_extension (r : response) (wd : World P) (m : re_match)
    (r' : response) (wd' : World P) :
    http_get P (css_request (family ++ ":" ++ w) subsets fmt) (world s) = (Answered r, wd) ->
    is_failure_status (r_status_code r) = false ->
    finditer FONT_URL_RE (r_text r) = [m] ->
    http_get P (font_request (group1 m (r_text r)) fmt) wd = (Answered r', wd') ->
    is_failure_status (r_status_code r') = false ->
    contains_char "." (group1 m (r_text r)) = false ->
    iteration_failure family subsets w fmt s IndexError (after s wd' [r_url r; r_url r']).

(** Line 85 raises for the weight [w]: the weights before it and its two
    formats went through, the new [src] declaration holds a backslash and
    the template compiler rejects it. *)
Definition template_failure {P : platform} (family : string)
    (weights subsets : list string) (italic : bool) (s0 : state P)
    (e : exn) (s' : state P) : Prop :=
  exists (ws1 : list string) (w : string) (ws2 : list string)
         (lw : locals) (sw : state P) (l1 : locals) (err : template_error),
    expand_weights weights italic = (ws1 ++ w :: ws2)%list /\
    for_each ws1 (process_weight family subsets (Spec.base_filename family subsets))
             initial_locals s0 = (Ok lw, sw) /\
    for_each FONT_FORMATS
             (fetch_format family subsets (Spec.base_filename family subsets) w)
             (start_weight lw) sw = (Ok l1, s') /\
    contains_char "\" (Spec.src_text (font_format_filenames l1)) = true /\
    compile_repl P (Spec.src_text (font_format_filenames l1)) = BadTemplate err /\
    e = template_exn err.

(** The exceptions that can leave [download_font_files]. *)
Definition may_leave (e : exn) : bool :=
  match e with
  | HTTPError _ _ | RequestException _ | RuntimeError _ | IndexError | ReError _ => true
  | ValueError | UnboundLocalError _ => false
  end.

(** A weight token made of decimal digits. *)
Definition is_digit (c : ascii) : bool :=
  let n := nat_of_ascii c in ((48 <=? n) && (n <=? 57))%nat.

Fixpoint all_digits (s : string) : bool :=
  match s with
  | EmptyString => true
  | String c rest => is_digit c && all_digits rest
  end.

(** A platform on which nothing goes wrong: every request is answered
    with a status that is no failure, every answer read as a style sheet
    has exactly one match of the pattern, the URL it names has a dot, and
    every replacement template compiles. *)
Definition well_behaved (P : platform) : Prop :=
  (forall req w, exists r w' m,
      http_get P req w = (Answered r, w') /\
      is_failure_status (r_status_code r) = false /\
      (req_url req = GOOGLE_FONTS_API ->
       finditer FONT_URL_RE (r_text r) = [m] /\
       contains_char "." (group1 m (r_text r)) = true)) /\
  (forall repl, exists f, compile_repl P repl = Expands f).

(* ================================================================= *)
(** * Properties *)

(** ** The model on concrete inputs *)

Example lower_open_sans : lower "Open Sans" = "open sans".
Proof. reflexivity. Qed.

Example rsplit1_font_url :
  rsplit1 "." "https://fonts.example/f700.woff2" = ["https://fonts.example/f700"; "woff2"].
Proof. reflexivity. Qed.

Example finditer_one_face :
  finditer FONT_URL_RE (Mock.face "https://fonts.example/f700.woff2" "woff2")
  = [mk_match 43 103 52 84].
Proof. vm_compute. reflexivity. Qed.

Example group1_one_face :
  group1 (mk_match 43 103 52 84) (Mock.face "https://fonts.example/f700.woff2" "woff2")
  = "https://fonts.example/f700.woff2".
Proof. vm_compute. reflexivity. Qed.

(** The rest of the line belongs to the match: a second declaration on the
    same line is not a match of its own. *)
Example finditer_same_line :
  finditer FONT_URL_RE ("src: url(a) src: url(b)" ++ newline) = [mk_match 0 24 9 10].
Proof. vm_compute. reflexivity. Qed.

Example finditer_unterminated : finditer FONT_URL_RE "src: url(a)" = [].
Proof. vm_compute. reflexivity. Qed.

Example run_css_404 :
  fst (download_font_files "Open Sans" ["700"] ["latin"] false (Mock.start Mock.css_404))
  = Raise (HTTPError 404 "https://fonts.googleapis.com/css?n=0").
Proof. vm_compute. reflexivity. Qed.

Example run_font_500 :
  fst (download_font_files "Open Sans" ["700"] ["latin"] false (Mock.start Mock.font_500))
  = Raise (HTTPError 500 "https://fonts.example/f700.woff").
Proof. vm_compute. reflexivity. Qed.

Example good_bundle_keys :
  keys Mock.good_bundle
  = ["open_sans-latin-700.woff"; "open_sans-latin-700.woff2"; "open_sans-latin.css"].
Proof. vm_compute. reflexivity. Qed.

Example good_bundle_css :
  dict_get Mock.good_bundle "open_sans-latin.css"
  = Some (encode_utf8
            (Mock.rewritten "open_sans-latin-700.woff" "open_sans-latin-700.woff2")).
Proof. vm_compute. reflexivity. Qed.

(** Two font URLs with the same extension give the same file name: the
    second download replaces the value and the key keeps its place. *)
Example same_extension_keys :
  match fst (download_font_files "Open Sans" ["400"] ["latin"] false
               (Mock.start Mock.same_extension)) with
  | Ok bundle =>
      keys bundle = ["open_sans-latin-400.ttf"; "open_sans-latin.css"] /\
      dict_get bundle "open_sans-latin-400.ttf"
      = Some (list_byte_of_string "https://fonts.example/b.ttf")
  | Raise _ => False
  end.
Proof. vm_compute. split; reflexivity. Qed.

(** ** Strings *)

Lemma append_nil_r (s : string) : s ++ "" = s.
Proof. induction s as [|c s IH]; simpl; [reflexivity | now rewrite IH]. Qed.

Lemma append_assoc (a b c : string) : (a ++ b) ++ c = a ++ (b ++ c).
Proof. induction a as [|x a IH]; simpl; [reflexivity | now rewrite IH]. Qed.

Lemma length_append (a b : string) :
  String.length (a ++ b) = String.length a + String.length b.
Proof. induction a as [|x a IH]; simpl; [reflexivity | now rewrite IH]. Qed.

Lemma contains_char_append (c : ascii) (a b : string) :
  contains_char c (a ++ b) = contains_char c a || contains_char c b.
Proof.
  induction a as [|x a IH]; simpl; [reflexivity |].
  now rewrite IH, orb_assoc.
Qed.

Lemma endswith_append_char (s : string) (c d : ascii) :
  endswith (s ++ String c "") d = Ascii.eqb c d.
Proof.
  induction s as [|x s IH]; simpl; [reflexivity |].
  destruct (s ++ String c "") eqn:E; [| exact IH].
  destruct s; discriminate.
Qed.

(** ** [str.format] on the templates of the script *)

Lemma format_family_weight (family weight : string) :
  format "{}:{}" [family; weight] = Ok (family ++ ":" ++ weight).
Proof. cbn. now rewrite append_nil_r. Qed.

Lemma format_base (a b : string) :
  format "{}-{}" [a; b] = Ok (a ++ "-" ++ b).
Proof. cbn. now rewrite append_nil_r. Qed.

Lemma format_filename (base label ext : string) :
  format "{}-{}.{}" [base; label; ext] = Ok (base ++ "-" ++ label ++ "." ++ ext).
Proof. cbn. now rewrite append_nil_r. Qed.

Lemma format_failed (url : string) :
  format "Failed to query google fonts for URL: {}" [url]
  = Ok ("Failed to query google fonts for URL: " ++ url).
Proof. cbn. now rewrite append_nil_r. Qed.

Lemma format_source (name fmt : string) :
  format "url('{}') format('{}')" [name; fmt]
  = Ok ("url('" ++ name ++ "') format('" ++ fmt ++ "')").
Proof. reflexivity. Qed.

Lemma format_src (sources : string) :
  format ("src: {};" ++ newline) [sources] = Ok ("src: " ++ sources ++ ";" ++ newline).
Proof. reflexivity. Qed.

(** ** [get_base_filename] *)

Lemma replace_lower_family (family : string) :
  replace " " "_" (lower family) = Spec.family_part family.
Proof. induction family as [|c f IH]; simpl; [reflexivity | now rewrite IH]. Qed.

Lemma join_subsets (subsets : list string) :
  join "_" subsets = Spec.subsets_part subsets.
Proof.
  unfold join. induction subsets as [|s rest IH]; simpl; [reflexivity |].
  destruct rest; [reflexivity | now rewrite IH].
Qed.

Lemma get_base_filename_ok (family : string) (subsets : list string) :
  get_base_filename family subsets = Ok (Spec.base_filename family subsets).
Proof.
  unfold get_base_filename, Spec.base_filename.
  now rewrite format_base, replace_lower_family, join_subsets.
Qed.

(** C8: the base file name is the family in lower case with its spaces
    turned into underscores, then a dash, then the subsets joined with
    underscores; for "Open Sans" and latin, latin-ext it is
    "open_sans-latin_latin-ext". *)
Theorem get_base_filename_spec :
  (forall (family : string) (subsets : list string),
      get_base_filename family subsets = Ok (Spec.base_filename family subsets)) /\
  get_base_filename "Open Sans" ["latin"; "latin-ext"] = Ok "open_sans-latin_latin-ext".
Proof.
  split; [exact get_base_filename_ok | reflexivity].
Qed.

(** ** The italic expansion *)

Lemma expand_italic_interleave (W : list string) :
  expand_weights W true = Spec.interleave_italic W.
Proof.
  unfold expand_weights. induction W as [|w W IH]; simpl; [reflexivity |].
  now rewrite IH.
Qed.

Lemma interleave_length (W : list string) :
  List.length (Spec.interleave_italic W) = 2 * List.length W.
Proof. induction W as [|w W IH]; simpl; [reflexivity | rewrite IH; lia]. Qed.

Lemma interleave_nth (W : list string) :
  forall k, nth_error (Spec.interleave_italic W) (2 * k) = nth_error W k /\
            nth_error (Spec.interleave_italic W) (2 * k + 1)
            = option_map (fun w => w ++ "i") (nth_error W k).
Proof.
  induction W as [|w W IH]; intros k.
  - simpl. destruct k; simpl; [split; reflexivity |].
    replace (k + S (k + 0)) with (S (2 * k)) by lia. simpl.
    destruct (2 * k + 1) eqn:E; [lia |]. split; reflexivity.
  - destruct k as [|k]; [split; reflexivity |].
    replace (2 * S k) with (S (S (2 * k))) by lia.
    replace (S (S (2 * k)) + 1) with (S (S (2 * k + 1))) by lia.
    simpl nth_error. apply IH.
Qed.

(** C3: without the italic flag the weight list is used as it is; with the
    flag the list doubles in length and is the interleaving
    w1, w1+"i", w2, w2+"i", ... in the order of the caller: position 2k holds
    the k-th weight and position 2k+1 the same weight followed by "i". *)
Theorem expand_weights_spec :
  forall W : list string,
    expand_weights W false = W /\
    List.length (expand_weights W true) = 2 * List.length W /\
    expand_weights W true = Spec.interleave_italic W /\
    (forall k, nth_error (expand_weights W true) (2 * k) = nth_error W k /\
               nth_error (expand_weights W true) (2 * k + 1)
               = option_map (fun w => w ++ "i") (nth_error W k)).
Proof.
  intros W. rewrite expand_italic_interleave.
  repeat split; try reflexivity.
  - apply interleave_length.
  - apply interleave_nth.
  - apply interleave_nth.
Qed.

(** ** The weight label *)

(** C4, as written, fails: the label of "400i" keeps the "i" of the weight
    and is "400italic", not "400talic". *)
Lemma weight_label_400i_not_talic :
  weight_label "400i" = "400italic" /\ weight_label "400i" <> "400talic".
Proof. split; [reflexivity | discriminate]. Qed.

(** C4, amended: a weight without the italic marker is its own label; a
    weight with the marker is followed by "talic", so that the marker and
    the suffix read "italic": "400" gives "400" and "400i" gives
    "400italic". *)
Theorem weight_label_spec :
  weight_label "400" = "400" /\
  weight_label "400i" = "400italic" /\
  (forall stem : string, weight_label (stem ++ "i") = stem ++ "italic") /\
  (forall w : string, endswith w "i" = false -> weight_label w = w).
Proof.
  repeat split.
  - intros stem. unfold weight_label.
    rewrite endswith_append_char. simpl. now rewrite append_assoc.
  - intros w H. unfold weight_label. now rewrite H.
Qed.

Lemma weight_label_spec_witness :
  endswith "700" "i" = false /\ weight_label "700" = "700".
Proof.
  split; [reflexivity |].
  apply (proj2 (proj2 (proj2 weight_label_spec)) "700"). reflexivity.
Defined.

(** ** [rsplit] and the extension of the font URL *)

Lemma rsplit_last_none (c : ascii) (s : string) :
  rsplit_last c s = None <-> contains_char c s = false.
Proof.
  induction s as [|a s IH]; simpl; [tauto |].
  destruct (rsplit_last c s) as [[b e]|].
  - split; [discriminate |]. intros H.
    apply orb_false_iff in H. destruct H as [_ H].
    apply IH in H. discriminate.
  - assert (Hs : contains_char c s = false) by now apply IH.
    rewrite Hs, orb_false_r.
    destruct (Ascii.eqb a c); split; intros; congruence.
Qed.

Lemma rsplit_last_some (c : ascii) (s b e : string) :
  rsplit_last c s = Some (b, e) ->
  s = b ++ String c e /\ contains_char c e = false.
Proof.
  revert b e. induction s as [|a s IH]; simpl; intros b e H; [discriminate |].
  destruct (rsplit_last c s) as [[b' e']|] eqn:E.
  - inversion H; subst. destruct (IH _ _ eq_refl) as [-> He]. now split.
  - destruct (Ascii.eqb_spec a c) as [->|]; [| discriminate].
    inversion H; subst. split; [reflexivity |]. now apply rsplit_last_none.
Qed.

Lemma rsplit_last_append (c : ascii) (b e : string) :
  contains_char c e = false -> rsplit_last c (b ++ String c e) = Some (b, e).
Proof.
  intros He. induction b as [|a b IH]; simpl.
  - apply rsplit_last_none in He. now rewrite He, Ascii.eqb_refl.
  - now rewrite IH.
Qed.

Lemma after_last_clean (c : ascii) (s : string) :
  contains_char c s = true -> contains_char c (Spec.after_last c s) = false.
Proof.
  induction s as [|a s IH]; simpl; [discriminate |].
  destruct (contains_char c s) eqn:E; [intros _; now apply IH |].
  rewrite orb_false_r. intros ->. exact E.
Qed.

Lemma after_last_split (c : ascii) (s : string) :
  contains_char c s = true ->
  exists b, s = b ++ String c (Spec.after_last c s).
Proof.
  induction s as [|a s IH]; simpl; [discriminate |].
  destruct (contains_char c s) eqn:E.
  - intros _. destruct (IH eq_refl) as [b Hb].
    exists (String a b). simpl. now rewrite <- Hb.
  - rewrite orb_false_r. intros H. rewrite H.
    apply Ascii.eqb_eq in H. subst a. now exists EmptyString.
Qed.

Lemma rsplit_last_after (c : ascii) (s : string) :
  contains_char c s = true ->
  exists b, rsplit_last c s = Some (b, Spec.after_last c s).
Proof.
  intros H. destruct (after_last_split c s H) as [b Hb].
  exists b. rewrite Hb at 1. apply rsplit_last_append.
  now apply after_last_clean.
Qed.

Lemma contains_after_last (c d : ascii) (s : string) :
  contains_char c (Spec.after_last d s) = true -> contains_char c s = true.
Proof.
  induction s as [|a s IH]; simpl; [discriminate |].
  destruct (contains_char d s).
  - intros H. rewrite (IH H). apply orb_true_r.
  - destruct (Ascii.eqb a d); simpl; [| tauto].
    intros ->. apply orb_true_r.
Qed.

Lemma after_last_app (c : ascii) (pre suf : string) :
  contains_char c suf = true ->
  Spec.after_last c (pre ++ suf) = Spec.after_last c suf.
Proof.
  intros H. induction pre as [|a pre IH]; simpl; [reflexivity |].
  now rewrite contains_char_append, H, orb_true_r.
Qed.

Lemma without_query_fragment_id (url : string) :
  contains_char "?" url = false -> contains_char "#" url = false ->
  Spec.without_query_fragment url = url.
Proof.
  induction url as [|a url IH]; simpl; [reflexivity |].
  intros Hq Hf. apply orb_false_iff in Hq, Hf.
  destruct Hq as [Hq Hq']. destruct Hf as [Hf Hf'].
  now rewrite Hq, Hf, IH.
Qed.

Lemma without_scheme_suffix (s : string) :
  exists pre, s = pre ++ Spec.without_scheme s.
Proof.
  unfold Spec.without_scheme.
  destruct (Spec.after_colon s) as [rest|] eqn:E; [| now exists EmptyString].
  revert rest E. induction s as [|a s IH]; simpl; intros rest E; [discriminate |].
  destruct (Ascii.eqb a ":").
  - inversion E; subst. now exists (String a EmptyString).
  - destruct (Ascii.eqb a "/"); [discriminate |].
    destruct (IH rest E) as [pre Hpre]. exists (String a pre). simpl. now rewrite <- Hpre.
Qed.

Lemma from_slash_suffix (s : string) : exists pre, s = pre ++ Spec.from_slash s.
Proof.
  induction s as [|a s IH]; simpl; [now exists EmptyString |].
  destruct (Ascii.eqb a "/"); [now exists EmptyString |].
  destruct IH as [pre Hpre]. exists (String a pre). simpl. now rewrite <- Hpre.
Qed.

Lemma without_authority_suffix (s : string) :
  exists pre, s = pre ++ Spec.without_authority s.
Proof.
  destruct s as [|a [|b rest]]; simpl; try (now exists EmptyString).
  destruct (Ascii.eqb a "/" && Ascii.eqb b "/"); [| now exists EmptyString].
  destruct (from_slash_suffix rest) as [pre Hpre].
  exists (String a (String b pre)). simpl. now rewrite <- Hpre.
Qed.

Lemma after_last_suffix (c : ascii) (s : string) :
  exists pre, s = pre ++ Spec.after_last c s.
Proof.
  induction s as [|a s IH]; simpl; [now exists EmptyString |].
  destruct (contains_char c s).
  - destruct IH as [pre Hpre]. exists (String a pre). simpl. now rewrite <- Hpre.
  - destruct (Ascii.eqb a c); [now exists (String a EmptyString) | now exists EmptyString].
Qed.

(** Without a query and a fragment, a URL ends with its last path segment. *)
Lemma last_path_segment_suffix (url : string) :
  contains_char "?" url = false -> contains_char "#" url = false ->
  exists pre, url = pre ++ Spec.last_path_segment url.
Proof.
  intros Hq Hf. unfold Spec.last_path_segment, Spec.url_path.
  rewrite (without_query_fragment_id url Hq Hf).
  destruct (without_scheme_suffix url) as [p1 H1].
  destruct (without_authority_suffix (Spec.without_scheme url)) as [p2 H2].
  destruct (after_last_suffix "/" (Spec.without_authority (Spec.without_scheme url)))
    as [p3 H3].
  exists (p1 ++ p2 ++ p3). rewrite !append_assoc, <- H3, <- H2. exact H1.
Qed.

Lemma url_extension_dot (url : string) :
  contains_char "." url = true ->
  url_extension url = Ok (Spec.after_last "." url).
Proof.
  intros H. unfold url_extension, rsplit1.
  destruct (rsplit_last_after "." url H) as [b ->]. reflexivity.
Qed.

Lemma url_extension_dotless (url : string) :
  contains_char "." url = false -> url_extension url = Raise IndexError.
Proof.
  intros H. unfold url_extension, rsplit1.
  apply rsplit_last_none in H. now rewrite H.
Qed.

Lemma url_extension_ok_iff (url ext : string) :
  url_extension url = Ok ext <->
  exists stem, url = stem ++ "." ++ ext /\ contains_char "." ext = false.
Proof.
  unfold url_extension, rsplit1. split.
  - destruct (rsplit_last "." url) as [[b e]|] eqn:E; [| discriminate].
    cbn. intros H. inversion H; subst.
    exists b. now apply rsplit_last_some.
  - intros [stem [-> He]]. cbn [append].
    now rewrite (rsplit_last_append "." stem ext He).
Qed.

(** C5, as written, fails: the last path segment of
    https://fonts.gstatic.com/s/font has no dot, yet the file name gets the
    extension "com/s/font", the text after the last dot of the whole URL. *)
Lemma url_extension_not_of_last_segment :
  ~ (forall url ext : string,
        url_extension url = Ok ext ->
        Spec.suffix_after_final_dot (Spec.last_path_segment url) = Some ext).
Proof.
  intros H.
  specialize (H "https://fonts.gstatic.com/s/font" "com/s/font" eq_refl).
  discriminate H.
Qed.

(** With a query the two part company as well: the last path segment of
    the URL below is f700.woff, the extension the code takes is "2". *)
Example url_extension_with_query :
  Spec.last_path_segment "https://fonts.example/f700.woff?v=1.2" = "f700.woff" /\
  url_extension "https://fonts.example/f700.woff?v=1.2" = Ok "2".
Proof. split; reflexivity. Qed.

(** C5, amended: the extension appended to the local file name is the text
    after the final dot of the whole extracted URL; for a URL without query
    and fragment whose last path segment has a dot, that is the suffix after
    the final dot of the last path segment. *)
Theorem url_extension_spec :
  forall url : string,
    (forall ext, url_extension url = Ok ext <->
                 exists stem, url = stem ++ "." ++ ext /\ contains_char "." ext = false) /\
    (contains_char "?" url = false ->
     contains_char "#" url = false ->
     contains_char "." (Spec.last_path_segment url) = true ->
     exists ext,
       Spec.suffix_after_final_dot (Spec.last_path_segment url) = Some ext /\
       url_extension url = Ok ext /\
       forall base weight,
         local_filename base weight url
         = Ok (base ++ "-" ++ weight_label weight ++ "." ++ ext)).
Proof.
  intros url. split; [intros ext; apply url_extension_ok_iff |].
  intros Hq Hf H. exists (Spec.after_last "." url).
  destruct (last_path_segment_suffix url Hq Hf) as [pre Hpre].
  assert (Hurl : contains_char "." url = true).
  { rewrite Hpre, contains_char_append, H. apply orb_true_r. }
  assert (Hlast : Spec.after_last "." (Spec.last_path_segment url)
                  = Spec.after_last "." url).
  { rewrite Hpre at 2. symmetry. now apply after_last_app. }
  repeat split.
  - unfold Spec.suffix_after_final_dot. now rewrite H, Hlast.
  - now apply url_extension_dot.
  - intros base weight. unfold local_filename.
    rewrite (url_extension_dot url Hurl). apply format_filename.
Qed.

Lemma url_extension_spec_witness :
  exists ext,
    Spec.suffix_after_final_dot
      (Spec.last_path_segment "https://fonts.example/v1.2/f700.woff2") = Some ext /\
    url_extension "https://fonts.example/v1.2/f700.woff2" = Ok ext /\
    forall base weight,
      local_filename base weight "https://fonts.example/v1.2/f700.woff2"
      = Ok (base ++ "-" ++ weight_label weight ++ "." ++ ext).
Proof.
  apply (proj2 (url_extension_spec "https://fonts.example/v1.2/f700.woff2"));
    reflexivity.
Defined.

(** ** Runs: the monad and the loops *)

Section Runs.

Context {P : platform}.

Lemma after_nil (s : state P) (w : World P) :
  {| world := w; stderr := stderr s |} = after s w [].
Proof. unfold after. now rewrite app_nil_r. Qed.

Lemma bind_raise {A B} (c : M P A) (k : A -> M P B) s e s1 :
  c s = (Raise e, s1) -> bind c k s = (Raise e, s1).
Proof. unfold bind. now intros ->. Qed.

Lemma for_each_app {X L} (body : X -> L -> M P L) (xs ys : list X) :
  forall l s,
    for_each (xs ++ ys) body l s =
    match for_each xs body l s with
    | (Ok l', s') => for_each ys body l' s'
    | (Raise e, s') => (Raise e, s')
    end.
Proof.
  induction xs as [|x xs IH]; intros l s; simpl; [reflexivity |].
  unfold bind. destruct (body x l s) as [[l1|e] s1]; [apply IH | reflexivity].
Qed.

(** An exception in the body of a loop ends the loop with that exception. *)
Lemma for_each_raise {X L} (body : X -> L -> M P L) xs1 x xs2 l s l1 s1 e s2 :
  for_each xs1 body l s = (Ok l1, s1) ->
  body x l1 s1 = (Raise e, s2) ->
  for_each (xs1 ++ x :: xs2) body l s = (Raise e, s2).
Proof.
  intros H1 H2. rewrite for_each_app, H1. simpl.
  now apply bind_raise.
Qed.

(** A loop that ends with an exception got it from one run of its body. *)
Lemma for_each_raise_inv {X L} (body : X -> L -> M P L) xs :
  forall l s e s2,
    for_each xs body l s = (Raise e, s2) ->
    exists xs1 x xs2 l1 s1,
      xs = (xs1 ++ x :: xs2)%list /\
      for_each xs1 body l s = (Ok l1, s1) /\
      body x l1 s1 = (Raise e, s2).
Proof.
  induction xs as [|x xs IH]; intros l s e s2; simpl; [discriminate |].
  unfold bind. destruct (body x l s) as [[l1|e1] s1] eqn:E.
  - intros H. destruct (IH _ _ _ _ H) as (xs1 & y & xs2 & l2 & s3 & -> & H1 & H2).
    exists (x :: xs1), y, xs2, l2, s3. repeat split; [| exact H2].
    simpl. unfold bind. now rewrite E.
  - intros H. inversion H; subst.
    exists [], x, xs, l, s. now repeat split.
Qed.

(** ** The body of the inner loop, case by case *)

Lemma fetch_format_eq (family : string) (subsets : list string)
    (base w : string) (fmt : font_format) (l : locals) (s : state P) :
  fetch_format family subsets base w fmt l s =
  match http_get P (css_request (family ++ ":" ++ w) subsets fmt) (world s) with
  | (Failed msg, wd) => (Raise (RequestException msg), after s wd [])
  | (Answered r, wd) =>
      if is_failure_status (r_status_code r)
      then (Raise (HTTPError (r_status_code r) (r_url r)), after s wd [])
      else
        match finditer FONT_URL_RE (r_text r) with
        | [m] =>
            let font_url := group1 m (r_text r) in
            match http_get P (font_request font_url fmt) wd with
            | (Failed msg, wd') => (Raise (RequestException msg), after s wd' [r_url r])
            | (Answered r', wd') =>
                if is_failure_status (r_status_code r')
                then (Raise (HTTPError (r_status_code r') (r_url r')),
                      after s wd' [r_url r])
                else
                  match local_filename base w font_url with
                  | Ok name =>
                      (Ok {| css := css l;
                             files := dict_set (files l) name (r_content r');
                             font_format_filenames :=
                               (font_format_filenames l ++ [(fmt, name)])%list;
                             css_part := Some (r_text r) |},
                       after s wd' [r_url r; r_url r'])
                  | Raise e => (Raise e, after s wd' [r_url r; r_url r'])
                  end
            end
        | _ =>
            (Raise (RuntimeError ("Failed to query google fonts for URL: " ++ r_url r)),
             after s wd [r_url r])
        end
  end.
Proof.
  unfold fetch_format. rewrite format_family_weight.
  unfold bind at 1. unfold lift at 1.
  unfold bind at 1. unfold requests_get at 1.
  destruct (http_get P (css_request (family ++ ":" ++ w) subsets fmt) (world s))
    as [[r|msg] wd]; [| now rewrite after_nil].
  unfold bind at 1. unfold raise_for_status at 1.
  destruct (is_failure_status (r_status_code r)); [unfold raise; now rewrite after_nil |].
  unfold ret at 1. unfold bind at 1. unfold print_stderr at 1.
  cbn [world stderr].
  destruct (finditer FONT_URL_RE (r_text r)) as [|m [|m' ms]]; cbn [List.length Nat.eqb negb].
  - rewrite format_failed. reflexivity.
  - unfold bind, lift, index_list, requests_get, raise_for_status, print_stderr, ret, raise.
    cbn [nth_error world stderr].
    destruct (http_get P (font_request (group1 m (r_text r)) fmt) wd) as [[r'|msg] wd'];
      [| reflexivity].
    destruct (is_failure_status (r_status_code r')); [reflexivity |].
    cbn [world stderr]. unfold after. rewrite <- app_assoc. cbn [app].
    destruct (local_filename base w (group1 m (r_text r))); reflexivity.
  - rewrite format_failed. reflexivity.
Qed.

End Runs.

(** ** The [src] declaration *)

Lemma source_entry_ok (f : font_format * string) :
  source_entry f = Ok (Spec.entry_text f).
Proof. unfold source_entry. apply format_source. Qed.

Lemma map_result_source_entry (fs : list (font_format * string)) :
  map_result source_entry fs = Ok (map Spec.entry_text fs).
Proof.
  induction fs as [|f fs IH]; cbn [map_result map]; [reflexivity |].
  now rewrite source_entry_ok, IH.
Qed.

Lemma build_src_ok (recorded : list (font_format * string)) :
  build_src recorded = Ok (Spec.src_text recorded).
Proof.
  unfold build_src. rewrite map_result_source_entry. apply format_src.
Qed.

(** ** The body of the outer loop and the whole function, case by case *)

Section Whole.

Context {P : platform}.

Lemma process_weight_eq (family : string) (subsets : list string)
    (base w : string) (l : locals) (s : state P) :
  process_weight family subsets base w l s =
  match for_each FONT_FORMATS (fetch_format family subsets base w) (start_weight l) s with
  | (Raise e, s1) => (Raise e, s1)
  | (Ok l1, s1) =>
      match css_part l1 with
      | None => (Raise (UnboundLocalError "css_part"), s1)
      | Some css_text =>
          match re_sub P FONT_URL_RE (Spec.src_text (font_format_filenames l1)) css_text with
          | Ok snippet =>
              (Ok {| css := (css l1 ++ [snippet])%list; files := files l1;
                     font_format_filenames := font_format_filenames l1;
                     css_part := css_part l1 |}, s1)
          | Raise e => (Raise e, s1)
          end
      end
  end.
Proof.
  unfold process_weight. unfold bind at 1.
  destruct (for_each FONT_FORMATS _ (start_weight l) s) as [[l1|e] s1]; [| reflexivity].
  rewrite build_src_ok. unfold bind, lift, ret, raise.
  destruct (css_part l1) as [c|]; [| reflexivity].
  destruct (re_sub P FONT_URL_RE (Spec.src_text (font_format_filenames l1)) c); reflexivity.
Qed.

Lemma download_font_files_eq (family : string) (weights subsets : list string)
    (italic : bool) (s0 : state P) :
  download_font_files family weights subsets italic s0 =
  let base := Spec.base_filename family subsets in
  match for_each (expand_weights weights italic)
                 (process_weight family subsets base) initial_locals s0 with
  | (Ok l, s) =>
      (Ok (dict_set (files l) (base ++ ".css") (encode_utf8 (join newline (css l)))), s)
  | (Raise e, s) => (Raise e, s)
  end.
Proof.
  unfold download_font_files. rewrite get_base_filename_ok.
  unfold bind, lift, ret. cbv zeta.
  destruct (for_each _ _ initial_locals s0) as [[l|e] s]; reflexivity.
Qed.

(** An exception raised in the body of the inner loop leaves
    [download_font_files] as it is, with the state of that moment. *)
Lemma fetch_raise_propagates family weights subsets italic (s0 : state P)
    w fmt l s e s' :
  arrives_at family weights subsets italic s0 w fmt l s ->
  fetch_format family subsets (Spec.base_filename family subsets) w fmt l s
  = (Raise e, s') ->
  download_font_files family weights subsets italic s0 = (Raise e, s').
Proof.
  intros (ws1 & ws2 & fs1 & fs2 & lw & sw & Hw & Hf & base & Hb & Hrun & Hin) Hraise.
  rewrite get_base_filename_ok in Hb. inversion Hb; subst base.
  rewrite download_font_files_eq. cbv zeta. rewrite Hw.
  erewrite for_each_raise; [reflexivity | exact Hrun |].
  rewrite process_weight_eq, Hf.
  erewrite for_each_raise; [reflexivity | exact Hin | exact Hraise].
Qed.

(** Every exception that leaves [download_font_files] was raised in the
    body of the inner loop, the two that line 85 can raise apart. *)
Lemma download_raise_inv family weights subsets italic (s0 : state P) e s' :
  download_font_files family weights subsets italic s0 = (Raise e, s') ->
  (exists w fmt l s,
      arrives_at family weights subsets italic s0 w fmt l s /\
      fetch_format family subsets (Spec.base_filename family subsets) w fmt l s
      = (Raise e, s')) \/
  (exists v, e = UnboundLocalError v) \/
  (exists err, e = template_exn err).
Proof.
  rewrite download_font_files_eq. cbv zeta.
  destruct (for_each _ _ initial_locals s0) as [[l|e1] s1] eqn:E; [discriminate |].
  intros H. inversion H; subst e1 s1. clear H.
  apply for_each_raise_inv in E.
  destruct E as (ws1 & w & ws2 & lw & sw & Hw & Hrun & Hbody).
  rewrite process_weight_eq in Hbody.
  destruct (for_each FONT_FORMATS _ (start_weight lw) sw) as [[l1|e1] s1] eqn:E1.
  - destruct (css_part l1) as [c|].
    + destruct (re_sub P FONT_URL_RE (Spec.src_text (font_format_filenames l1)) c) eqn:Es;
        [discriminate |].
      inversion Hbody; subst. right; right.
      unfold re_sub in Es.
      destruct (if contains_char "\" _ then _ else _); [discriminate |].
      inversion Es. eauto.
    + inversion Hbody; subst. right; left. eauto.
  - inversion Hbody; subst e1 s1. left.
    apply for_each_raise_inv in E1.
    destruct E1 as (fs1 & fmt & fs2 & l1 & s1 & Hf & Hin & Hfetch).
    exists w, fmt, l1, s1. split; [| exact Hfetch].
    exists ws1, ws2, fs1, fs2, lw, sw. repeat split; try assumption.
    exists (Spec.base_filename family subsets).
    repeat split; try assumption. apply get_base_filename_ok.
Qed.

End Whole.

(** ** Failures *)

Lemma local_filename_raise (base w url : string) (e : exn) :
  local_filename base w url = Raise e -> e = IndexError.
Proof.
  unfold local_filename, url_extension, index_list.
  destruct (nth_error (rsplit1 "." url) 1).
  - now rewrite format_filename.
  - now inversion 1.
Qed.

Lemma upstream_failure_raises {P : platform} family subsets base w fmt l
    (s : state P) e s' :
  upstream_failure family subsets w fmt s e s' ->
  fetch_format family subsets base w fmt l s = (Raise e, s').
Proof.
  intros H. rewrite fetch_format_eq.
  destruct H as [r wd Hcss Hbad | r wd Hcss Hgood Hcount
                | r wd m r' wd' Hcss Hgood Hone Hfont Hbad]; rewrite Hcss.
  - now rewrite Hbad.
  - rewrite Hgood.
    destruct (finditer FONT_URL_RE (r_text r)) as [|m [|m' ms]];
      [reflexivity | now elim Hcount | reflexivity].
  - rewrite Hgood, Hone. cbv zeta. rewrite Hfont. now rewrite Hbad.
Qed.

(** C1: at whatever iteration a failure status comes back from the CSS
    endpoint or from the font download, or the pattern does not match
    exactly once, [download_font_files] ends with that exception, in the
    state of that moment, and returns no mapping: the files stored by the
    earlier iterations go nowhere. *)
Theorem download_atomic :
  forall (P : platform) family weights subsets italic (s0 : state P)
         w fmt l s e s',
    arrives_at family weights subsets italic s0 w fmt l s ->
    upstream_failure family subsets w fmt s e s' ->
    download_font_files family weights subsets italic s0 = (Raise e, s') /\
    (forall bundle s'',
        download_font_files family weights subsets italic s0 <> (Ok bundle, s'')).
Proof.
  intros P family weights subsets italic s0 w fmt l s e s' Harr Hfail.
  assert (H : download_font_files family weights subsets italic s0 = (Raise e, s')).
  { eapply fetch_raise_propagates; [exact Harr |].
    now apply upstream_failure_raises. }
  split; [exact H |]. intros bundle s''. rewrite H. discriminate.
Qed.

(** The woff file of weight 700 is stored, then the style sheet for woff2
    has two faces. *)
Lemma download_atomic_witness :
  download_font_files "Open Sans" ["700"] ["latin"] false (Mock.start Mock.two_faces)
  = (Raise (RuntimeError
       "Failed to query google fonts for URL: https://fonts.googleapis.com/css?n=2"),
     {| world := 3 : World (Mock.platform_of Mock.two_faces);
        stderr := ["https://fonts.googleapis.com/css?n=0";
                   "https://fonts.example/f700.woff";
                   "https://fonts.googleapis.com/css?n=2"] |}) /\
  (forall bundle s'',
      download_font_files "Open Sans" ["700"] ["latin"] false (Mock.start Mock.two_faces)
      <> (Ok bundle, s'')).
Proof.
  refine (download_atomic (P := Mock.platform_of Mock.two_faces)
            (w := "700") (fmt := woff2)
            (l := {| css := [];
                     files := [("open_sans-latin-700.woff",
                                list_byte_of_string "https://fonts.example/f700.woff")];
                     font_format_filenames := [(woff, "open_sans-latin-700.woff")];
                     css_part := Some (Mock.css_body Mock.two_faces WOFF_USER_AGENT) |})
            (s := {| world := 2 : World (Mock.platform_of Mock.two_faces);
                     stderr := ["https://fonts.googleapis.com/css?n=0";
                                "https://fonts.example/f700.woff"] |})
            _ _).
  - exists [], [], [woff], [], (initial_locals), (Mock.start Mock.two_faces).
    split; [reflexivity |]. split; [reflexivity |].
    exists "open_sans-latin". repeat split; reflexivity.
  - assert (Hcount : List.length
              (finditer FONT_URL_RE (Mock.css_body Mock.two_faces WOFF2_USER_AGENT)) <> 1).
    { vm_compute. intros H. discriminate H. }
    exact (@pattern_failure (Mock.platform_of Mock.two_faces)
             "Open Sans" ["latin"] "700" woff2
             {| world := 2 : World (Mock.platform_of Mock.two_faces);
                stderr := ["https://fonts.googleapis.com/css?n=0";
                           "https://fonts.example/f700.woff"] |}
             {| r_status_code := 200;
                r_url := "https://fonts.googleapis.com/css?n=2";
                r_text := Mock.css_body Mock.two_faces WOFF2_USER_AGENT;
                r_content := [] |}
             (3 : World (Mock.platform_of Mock.two_faces))
             eq_refl eq_refl Hcount).
Defined.

(** The body of the inner loop raises a [RuntimeError] only for a style
    sheet in which the pattern does not match exactly once. *)
Lemma fetch_runtime_error_inv {P : platform} family subsets base w fmt l
    (s : state P) msg s' :
  fetch_format family subsets base w fmt l s = (Raise (RuntimeError msg), s') ->
  exists r wd,
    http_get P (css_request (family ++ ":" ++ w) subsets fmt) (world s) = (Answered r, wd) /\
    is_failure_status (r_status_code r) = false /\
    List.length (finditer FONT_URL_RE (r_text r)) <> 1 /\
    msg = "Failed to query google fonts for URL: " ++ r_url r /\
    s' = after s wd [r_url r].
Proof.
  rewrite fetch_format_eq.
  destruct (http_get P (css_request (family ++ ":" ++ w) subsets fmt) (world s))
    as [[r|m] wd]; [| discriminate].
  destruct (is_failure_status (r_status_code r)) eqn:Hs; [discriminate |].
  destruct (finditer FONT_URL_RE (r_text r)) as [|m [|m' ms]] eqn:Hm.
  - intros H. inversion H; subst. exists r, wd.
    repeat split; try reflexivity; try assumption. rewrite Hm. simpl. lia.
  - cbv zeta.
    destruct (http_get P (font_request (group1 m (r_text r)) fmt) wd) as [[r'|m'] wd'];
      [| discriminate].
    destruct (is_failure_status (r_status_code r')); [discriminate |].
    destruct (local_filename base w (group1 m (r_text r))) as [name|e] eqn:Hn;
      [discriminate |].
    apply local_filename_raise in Hn. subst e. discriminate.
  - intros H. inversion H; subst. exists r, wd.
    repeat split; try reflexivity; try assumption. rewrite Hm. simpl. lia.
Qed.

(** C2, as written, fails: for a style sheet without a match the call ends
    with an error, but its message, "Failed to query google fonts for URL: "
    and the URL, does not contain the text "failed to query for URL". *)
Lemma pattern_error_message_differs :
  List.length (finditer FONT_URL_RE (Mock.css_body Mock.no_face WOFF_USER_AGENT)) <> 1 /\
  fst (download_font_files "Open Sans" ["400"] ["latin"] false (Mock.start Mock.no_face))
  = Raise (RuntimeError
             "Failed to query google fonts for URL: https://fonts.googleapis.com/css?n=0") /\
  Spec.contains_text "failed to query for URL"
    "Failed to query google fonts for URL: https://fonts.googleapis.com/css?n=0" = false.
Proof.
  split; [vm_compute; intros H; discriminate H |].
  split; vm_compute; reflexivity.
Qed.

(** C2, amended: [download_font_files] ends with the [RuntimeError] of line
    68, whose message is "Failed to query google fonts for URL: " and the URL
    of the response, if and only if the run arrives at a style sheet in which
    the number of matches of [FONT_URL_RE] is not exactly one; the result is
    the exception, and no mapping. *)
Theorem pattern_error_iff :
  forall (P : platform) family weights subsets italic (s0 : state P) msg s',
    download_font_files family weights subsets italic s0
    = (Raise (RuntimeError msg), s')
    <->
    exists w fmt l s r wd,
      arrives_at family weights subsets italic s0 w fmt l s /\
      http_get P (css_request (family ++ ":" ++ w) subsets fmt) (world s)
      = (Answered r, wd) /\
      is_failure_status (r_status_code r) = false /\
      List.length (finditer FONT_URL_RE (r_text r)) <> 1 /\
      msg = "Failed to query google fonts for URL: " ++ r_url r /\
      s' = after s wd [r_url r].
Proof.
  intros P family weights subsets italic s0 msg s'. split.
  - intros H. apply download_raise_inv in H.
    destruct H as [(w & fmt & l & s & Harr & Hf) | [[v Hv] | [[m|m] Hm]]];
      [| discriminate | discriminate | discriminate].
    apply fetch_runtime_error_inv in Hf.
    destruct Hf as (r & wd & H1 & H2 & H3 & H4 & H5).
    exists w, fmt, l, s, r, wd. repeat split; assumption.
  - intros (w & fmt & l & s & r & wd & Harr & H1 & H2 & H3 & -> & ->).
    eapply fetch_raise_propagates; [exact Harr |].
    apply upstream_failure_raises. now apply pattern_failure.
Qed.

(** No face in the style sheet: the first request already ends the run. *)
Lemma pattern_error_iff_witness :
  download_font_files "Open Sans" ["400"] ["latin"; "latin-ext"] true
    (Mock.start Mock.no_face)
  = (Raise (RuntimeError
       "Failed to query google fonts for URL: https://fonts.googleapis.com/css?n=0"),
     {| world := 1 : World (Mock.platform_of Mock.no_face);
        stderr := ["https://fonts.googleapis.com/css?n=0"] |}).
Proof.
  apply (proj2 (pattern_error_iff (P := Mock.platform_of Mock.no_face)
                  "Open Sans" ["400"] ["latin"; "latin-ext"] true
                  (Mock.start Mock.no_face) _ _)).
  exists "400", woff, (start_weight initial_locals), (Mock.start Mock.no_face),
    {| r_status_code := 200;
       r_url := "https://fonts.googleapis.com/css?n=0";
       r_text := "/* no such family */" ++ newline;
       r_content := [] |},
    (1 : World (Mock.platform_of Mock.no_face)).
  split.
  - exists [], ["400i"], [], [woff2], initial_locals, (Mock.start Mock.no_face).
    split; [reflexivity |]. split; [reflexivity |].
    exists "open_sans-latin_latin-ext". repeat split; reflexivity.
  - split; [reflexivity |]. split; [reflexivity |].
    split; [vm_compute; intros H; discriminate H |].
    split; reflexivity.
Defined.

(** ** A font URL without a dot *)

Lemma local_filename_dotless (base w url : string) :
  contains_char "." url = false -> local_filename base w url = Raise IndexError.
Proof.
  intros H. unfold local_filename. now rewrite (url_extension_dotless url H).
Qed.

Lemma local_filename_total_iff (base w url : string) :
  (exists name, local_filename base w url = Ok name) <-> contains_char "." url = true.
Proof.
  split.
  - intros [name H]. destruct (contains_char "." url) eqn:E; [reflexivity |].
    rewrite (local_filename_dotless base w url E) in H. discriminate.
  - intros H. unfold local_filename. rewrite (url_extension_dot url H).
    rewrite format_filename. eauto.
Qed.

(** C10: the file name is derived exactly for the font URLs that contain a
    dot.  For a URL without one the index into the result of [rsplit] is out
    of range: once such a font has been downloaded, [download_font_files]
    ends with [IndexError], which is none of the upstream errors. *)
Theorem dotless_url_index_error :
  (forall base w url,
      (exists name, local_filename base w url = Ok name)
      <-> contains_char "." url = true) /\
  (forall base w url,
      contains_char "." url = false -> local_filename base w url = Raise IndexError) /\
  Spec.is_upstream_error IndexError = false /\
  (forall (P : platform) family weights subsets italic (s0 : state P)
          w fmt l s r wd m r' wd',
      arrives_at family weights subsets italic s0 w fmt l s ->
      http_get P (css_request (family ++ ":" ++ w) subsets fmt) (world s)
      = (Answered r, wd) ->
      is_failure_status (r_status_code r) = false ->
      finditer FONT_URL_RE (r_text r) = [m] ->
      contains_char "." (group1 m (r_text r)) = false ->
      http_get P (font_request (group1 m (r_text r)) fmt) wd = (Answered r', wd') ->
      is_failure_status (r_status_code r') = false ->
      download_font_files family weights subsets italic s0
      = (Raise IndexError, after s wd' [r_url r; r_url r'])).
Proof.
  split; [exact local_filename_total_iff |].
  split; [exact local_filename_dotless |].
  split; [reflexivity |].
  intros P family weights subsets italic s0 w fmt l s r wd m r' wd'
         Harr Hcss Hgood Hone Hdot Hfont Hgood'.
  eapply fetch_raise_propagates; [exact Harr |].
  rewrite fetch_format_eq, Hcss, Hgood, Hone. cbv zeta.
  rewrite Hfont, Hgood'. now rewrite local_filename_dotless.
Qed.

(** The style sheet names https://localhost/font. *)
Lemma dotless_url_index_error_witness :
  download_font_files "Open Sans" ["400"] ["latin"] false (Mock.start Mock.dotless)
  = (Raise IndexError,
     {| world := 2 : World (Mock.platform_of Mock.dotless);
        stderr := ["https://fonts.googleapis.com/css?n=0"; "https://localhost/font"] |}).
Proof.
  pose (r := {| r_status_code := 200;
                r_url := "https://fonts.googleapis.com/css?n=0";
                r_text := Mock.face "https://localhost/font" "woff";
                r_content := [] |}).
  pose (r' := {| r_status_code := 200;
                 r_url := "https://localhost/font";
                 r_text := EmptyString;
                 r_content := list_byte_of_string "https://localhost/font" |}).
  refine (proj2 (proj2 (proj2 dotless_url_index_error))
            (Mock.platform_of Mock.dotless) "Open Sans" ["400"] ["latin"] false
            (Mock.start Mock.dotless) "400" woff (start_weight initial_locals)
            (Mock.start Mock.dotless) r (1 : World (Mock.platform_of Mock.dotless))
            (mk_match 43 92 52 74) r' (2 : World (Mock.platform_of Mock.dotless))
            _ eq_refl eq_refl _ _ eq_refl eq_refl).
  - exists [], [], [], [woff2], initial_locals, (Mock.start Mock.dotless).
    split; [reflexivity |]. split; [reflexivity |].
    exists "open_sans-latin". repeat split; reflexivity.
  - vm_compute. reflexivity.
  - vm_compute. reflexivity.
Defined.

(** ** Successful iterations *)

Lemma local_filename_font_key (base w url name : string) :
  local_filename base w url = Ok name ->
  exists ext, url_extension url = Ok ext /\ name = font_key base w ext.
Proof.
  unfold local_filename. destruct (url_extension url) as [ext|e]; [| discriminate].
  rewrite format_filename. intros H. inversion H. now exists ext.
Qed.

Section Success.

Context {P : platform}.

Lemma fetch_format_ok_inv family subsets base w fmt l (s : state P) l' s' :
  fetch_format family subsets base w fmt l s = (Ok l', s') ->
  exists kv css_text,
    downloaded (P := P) fmt base w kv /\
    l' = {| css := css l;
            files := dict_set (files l) (fst kv) (snd kv);
            font_format_filenames :=
              (font_format_filenames l ++ [(fmt, fst kv)])%list;
            css_part := Some css_text |}.
Proof.
  rewrite fetch_format_eq.
  destruct (http_get P _ (world s)) as [[r|m] wd]; [| discriminate].
  destruct (is_failure_status (r_status_code r)); [discriminate |].
  destruct (finditer FONT_URL_RE (r_text r)) as [|m [|m' ms]];
    [discriminate | | discriminate].
  cbv zeta.
  destruct (http_get P _ wd) as [[r'|m'] wd'] eqn:Hget; [| discriminate].
  destruct (is_failure_status (r_status_code r')); [discriminate |].
  destruct (local_filename base w (group1 m (r_text r))) as [name|e] eqn:Hn;
    [| discriminate].
  intros H. inversion H; subst.
  apply local_filename_font_key in Hn. destruct Hn as (ext & Hext & ->).
  exists (font_key base w ext, r_content r'), (r_text r). split; [| reflexivity].
  exists (group1 m (r_text r)), ext, wd, r', wd'. now repeat split.
Qed.

Lemma formats_loop_ok_inv family subsets base w l (s : state P) l1 s1 :
  for_each FONT_FORMATS (fetch_format family subsets base w) (start_weight l) s
  = (Ok l1, s1) ->
  exists kv1 kv2 css_text,
    downloaded (P := P) woff base w kv1 /\
    downloaded (P := P) woff2 base w kv2 /\
    l1 = {| css := css l;
            files := store_all (files l) [kv1; kv2];
            font_format_filenames := [(woff, fst kv1); (woff2, fst kv2)];
            css_part := Some css_text |}.
Proof.
  unfold FONT_FORMATS. cbn [for_each]. unfold bind at 1.
  destruct (fetch_format family subsets base w _ (start_weight l) s)
    as [[la|e] sa] eqn:Ea; [| discriminate].
  unfold bind at 1.
  destruct (fetch_format family subsets base w _ la sa) as [[lb|e] sb] eqn:Eb;
    [| discriminate].
  unfold ret. intros H. inversion H; subst lb sb. clear H.
  apply fetch_format_ok_inv in Ea. destruct Ea as (kv1 & t1 & Hd1 & ->).
  apply fetch_format_ok_inv in Eb. destruct Eb as (kv2 & t2 & Hd2 & ->).
  exists kv1, kv2, t2. repeat split; assumption.
Qed.

Lemma process_weight_ok_inv family subsets base w l (s : state P) l' s' :
  process_weight family subsets base w l s = (Ok l', s') ->
  exists kv1 kv2 css_text snippet,
    downloaded (P := P) woff base w kv1 /\
    downloaded (P := P) woff2 base w kv2 /\
    re_sub P FONT_URL_RE (Spec.src_text [(woff, fst kv1); (woff2, fst kv2)]) css_text
    = Ok snippet /\
    l' = {| css := (css l ++ [snippet])%list;
            files := store_all (files l) [kv1; kv2];
            font_format_filenames := [(woff, fst kv1); (woff2, fst kv2)];
            css_part := Some css_text |}.
Proof.
  rewrite process_weight_eq.
  destruct (for_each FONT_FORMATS _ (start_weight l) s) as [[l1|e] s1] eqn:E;
    [| discriminate].
  apply formats_loop_ok_inv in E.
  destruct E as (kv1 & kv2 & t & Hd1 & Hd2 & ->).
  cbn [css_part font_format_filenames css files].
  destruct (re_sub P FONT_URL_RE _ t) as [snippet|e] eqn:Es; [| discriminate].
  intros H. inversion H; subst.
  exists kv1, kv2, t, snippet. repeat split; assumption.
Qed.

End Success.

(** C6: the [src] declaration of a weight lists the recorded files last
    recorded first, so the woff2 file comes before the woff file; every
    entry reads url('<file>') format('<format>'), the entries are joined by
    a comma, a line feed and seven spaces.  A weight that goes through adds
    to the CSS list its style sheet with that declaration substituted. *)
Theorem src_declaration_order :
  (forall recorded,
      build_src recorded
      = Ok ("src: " ++ join ("," ++ newline ++ "       ")
                            (map Spec.entry_text (rev recorded)) ++ ";" ++ newline)) /\
  (forall n_woff n_woff2 : string,
      build_src [(woff, n_woff); (woff2, n_woff2)]
      = Ok ("src: url('" ++ n_woff2 ++ "') format('woff2')," ++ newline ++
            "       url('" ++ n_woff ++ "') format('woff');" ++ newline)) /\
  (forall (P : platform) family subsets base w l (s : state P) l' s',
      process_weight family subsets base w l s = (Ok l', s') ->
      exists n_woff n_woff2 css_text snippet,
        font_format_filenames l' = [(woff, n_woff); (woff2, n_woff2)] /\
        css_part l' = Some css_text /\
        re_sub P FONT_URL_RE
          ("src: url('" ++ n_woff2 ++ "') format('woff2')," ++ newline ++
           "       url('" ++ n_woff ++ "') format('woff');" ++ newline) css_text
        = Ok snippet /\
        css l' = (css l ++ [snippet])%list).
Proof.
  assert (Htwo : forall n1 n2 : string,
             Spec.src_text [(woff, n1); (woff2, n2)]
             = "src: url('" ++ n2 ++ "') format('woff2')," ++ newline ++
               "       url('" ++ n1 ++ "') format('woff');" ++ newline).
  { intros n1 n2. unfold Spec.src_text, Spec.entry_text, join. cbn.
    repeat (rewrite ?append_assoc; cbn). reflexivity. }
  split; [exact build_src_ok |].
  split; [intros n1 n2; rewrite build_src_ok; now rewrite Htwo |].
  intros P family subsets base w l s l' s' H.
  apply process_weight_ok_inv in H.
  destruct H as (kv1 & kv2 & t & snippet & _ & _ & Hs & ->).
  exists (fst kv1), (fst kv2), t, snippet. rewrite <- Htwo. now repeat split.
Qed.

(** Weight 700 against the platform on which every request succeeds. *)
Lemma src_declaration_order_witness :
  exists n_woff n_woff2 css_text snippet,
    [(woff, "b-700.woff"); (woff2, "b-700.woff2")]
    = [(woff, n_woff); (woff2, n_woff2)] /\
    Some (Mock.css_body Mock.good WOFF2_USER_AGENT) = Some css_text /\
    re_sub (Mock.platform_of Mock.good) FONT_URL_RE
      ("src: url('" ++ n_woff2 ++ "') format('woff2')," ++ newline ++
       "       url('" ++ n_woff ++ "') format('woff');" ++ newline) css_text
    = Ok snippet /\
    [Mock.rewritten "b-700.woff" "b-700.woff2"] = ([] ++ [snippet])%list.
Proof.
  refine (proj2 (proj2 src_declaration_order)
            (Mock.platform_of Mock.good) "Open Sans" ["latin"] "b" "700"
            initial_locals (Mock.start Mock.good)
            {| css := [Mock.rewritten "b-700.woff" "b-700.woff2"];
               files := [("b-700.woff",
                          list_byte_of_string "https://fonts.example/f700.woff");
                         ("b-700.woff2",
                          list_byte_of_string "https://fonts.example/f700.woff2")];
               font_format_filenames := [(woff, "b-700.woff"); (woff2, "b-700.woff2")];
               css_part := Some (Mock.css_body Mock.good WOFF2_USER_AGENT) |}
            {| world := 4 : World (Mock.platform_of Mock.good);
               stderr := ["https://fonts.googleapis.com/css?n=0";
                          "https://fonts.example/f700.woff";
                          "https://fonts.googleapis.com/css?n=2";
                          "https://fonts.example/f700.woff2"] |}
            _).
  vm_compute. reflexivity.
Defined.

(** ** The keys of the bundle *)

Lemma keys_dict_set (d : dict) (k : string) (v : list byte) :
  keys (dict_set d k v)
  = if existsb (String.eqb k) (keys d) then keys d else (keys d ++ [k])%list.
Proof.
  unfold keys.
  induction d as [|[k' v'] d IH]; cbn [dict_set map fst existsb app]; [reflexivity |].
  rewrite (String.eqb_sym k k').
  destruct (String.eqb k' k); cbn [orb map fst]; [reflexivity |].
  rewrite IH.
  now destruct (existsb (String.eqb k) (map fst d)).
Qed.

Lemma keys_store_all (kvs : list (string * list byte)) :
  forall d, keys (store_all d kvs) = Spec.keys_after (keys d) (map fst kvs).
Proof.
  unfold store_all.
  induction kvs as [|[k v] kvs IH]; intros d; simpl; [reflexivity |].
  now rewrite IH, keys_dict_set.
Qed.

Lemma store_all_app (d : dict) (xs ys : list (string * list byte)) :
  store_all d (xs ++ ys) = store_all (store_all d xs) ys.
Proof. unfold store_all. apply fold_left_app. Qed.

Lemma existsb_eqb_In (k : string) (ks : list string) :
  existsb (String.eqb k) ks = true <-> In k ks.
Proof.
  rewrite existsb_exists. split.
  - intros [x [Hin Heq]]. apply String.eqb_eq in Heq. now subst.
  - intros Hin. exists k. split; [assumption | apply String.eqb_refl].
Qed.

Lemma keys_after_In (ks : list string) :
  forall acc k, In k (Spec.keys_after acc ks) -> In k acc \/ In k ks.
Proof.
  induction ks as [|x ks IH]; intros acc k; simpl; [tauto |].
  intros H. apply IH in H. destruct H as [H | H]; [| tauto].
  destruct (existsb (String.eqb x) acc); [tauto |].
  apply in_app_or in H. simpl in H. intuition.
Qed.

Lemma keys_after_NoDup (ks : list string) :
  forall acc, NoDup acc -> NoDup (Spec.keys_after acc ks).
Proof.
  induction ks as [|x ks IH]; intros acc Hacc; simpl; [assumption |].
  apply IH. destruct (existsb (String.eqb x) acc) eqn:E; [assumption |].
  apply NoDup_app; [assumption | repeat constructor; intros [] |].
  intros a Ha [<- | []].
  apply existsb_eqb_In in Ha. congruence.
Qed.

Lemma keys_after_fresh (ks : list string) :
  forall acc, NoDup (acc ++ ks) -> Spec.keys_after acc ks = (acc ++ ks)%list.
Proof.
  induction ks as [|x ks IH]; intros acc H; simpl; [now rewrite app_nil_r |].
  destruct (existsb (String.eqb x) acc) eqn:E.
  - apply existsb_eqb_In in E. apply NoDup_remove_2 in H.
    elim H. apply in_or_app. now left.
  - rewrite IH; rewrite <- app_assoc; [reflexivity | exact H].
Qed.

Lemma keys_after_last (ks acc : list string) (k : string) :
  ~ In k acc -> ~ In k ks ->
  Spec.keys_after acc (ks ++ [k]) = (Spec.keys_after acc ks ++ [k])%list.
Proof.
  revert acc. induction ks as [|x ks IH]; intros acc Hacc Hks; simpl.
  - destruct (existsb (String.eqb k) acc) eqn:E; [| reflexivity].
    apply existsb_eqb_In in E. contradiction.
  - apply IH; [| intros H; apply Hks; now right].
    destruct (existsb (String.eqb x) acc); [assumption |].
    intros H. apply in_app_or in H. destruct H as [H | [H | []]]; [contradiction |].
    apply Hks. now left.
Qed.

Lemma css_key_not_font_key (base w ext : string) :
  base ++ ".css" <> font_key base w ext.
Proof.
  unfold font_key. induction base as [|c base IH]; simpl.
  - discriminate.
  - intros H. inversion H. contradiction.
Qed.

Lemma downloaded_key {P : platform} fmt base w kv :
  downloaded (P := P) fmt base w kv -> exists ext, fst kv = font_key base w ext.
Proof. intros (u & ext & wd & r & wd' & _ & _ & ->). now exists ext. Qed.

Lemma weight_stores_keys {P : platform} base ws stored :
  Forall2 (weight_stores (P := P) base) ws stored ->
  ~ In (base ++ ".css") (map fst (concat stored)).
Proof.
  induction 1 as [|w per ws stored Hper _ IH]; simpl; [tauto |].
  rewrite map_app. intros H. apply in_app_or in H. destruct H as [H | H]; [| tauto].
  destruct Hper as (kv1 & kv2 & Hd1 & Hd2 & ->). simpl in H.
  apply downloaded_key in Hd1. destruct Hd1 as [e1 He1].
  apply downloaded_key in Hd2. destruct Hd2 as [e2 He2].
  rewrite He1, He2 in H.
  destruct H as [H | [H | []]]; symmetry in H; now apply css_key_not_font_key in H.
Qed.

(** The loop over the weights, when it goes through: every weight stored
    its two files, in the order of the weights, and added one snippet. *)
Lemma weights_loop_ok_inv {P : platform} family subsets base ws :
  forall l (s : state P) l' s',
    for_each ws (process_weight family subsets base) l s = (Ok l', s') ->
    exists stored snippets,
      Forall2 (weight_stores (P := P) base) ws stored /\
      files l' = store_all (files l) (concat stored) /\
      css l' = (css l ++ snippets)%list /\
      List.length snippets = List.length ws.
Proof.
  induction ws as [|w ws IH]; intros l s l' s'; simpl.
  - unfold ret. intros H. inversion H; subst.
    exists [], []. repeat split; [constructor | now rewrite app_nil_r].
  - unfold bind.
    destruct (process_weight family subsets base w l s) as [[l1|e] s1] eqn:E;
      [| discriminate].
    intros H. apply IH in H. destruct H as (stored & snippets & HF & Hfiles & Hcss & Hlen).
    apply process_weight_ok_inv in E.
    destruct E as (kv1 & kv2 & t & snippet & Hd1 & Hd2 & _ & ->).
    exists ([kv1; kv2] :: stored), (snippet :: snippets).
    repeat split.
    + constructor; [| assumption]. now exists kv1, kv2.
    + rewrite Hfiles. reflexivity.
    + rewrite Hcss. cbn [css]. now rewrite <- app_assoc.
    + simpl. now rewrite Hlen.
Qed.

(** ** What [FONT_URL_RE] matches *)

Lemma match_lazy_eq (re : regex) (s : string) (pos go gc : nat) :
  match_here (LazyDots :: re) s pos go gc =
  match match_here re s pos go gc with
  | Some r => Some r
  | None =>
      match s with
      | String a s' =>
          if Ascii.eqb a LF then None else match_here (LazyDots :: re) s' (S pos) go gc
      | EmptyString => None
      end
  end.
Proof. destruct s; reflexivity. Qed.

Lemma match_literal (p : string) (re : regex) :
  forall s pos go gc,
    match_here (literal p ++ re)%list (p ++ s) pos go gc
    = match_here re s (pos + String.length p) go gc.
Proof.
  induction p as [|c p IH]; intros s pos go gc; simpl.
  - now rewrite Nat.add_0_r.
  - rewrite Ascii.eqb_refl, IH. f_equal. lia.
Qed.

Lemma match_literal_inv (p : string) (re : regex) :
  forall s pos go gc r,
    match_here (literal p ++ re)%list s pos go gc = Some r ->
    exists s', s = p ++ s'.
Proof.
  induction p as [|c p IH]; intros s pos go gc r; simpl.
  - intros _. now exists s.
  - destruct s as [|a s]; [discriminate |].
    destruct (Ascii.eqb_spec a c) as [->|]; [| discriminate].
    intros H. apply IH in H. destruct H as [s' ->]. now exists s'.
Qed.

Lemma match_chr_eq (c : ascii) (re : regex) (a : ascii) (s : string) (pos go gc : nat) :
  match_here (Chr c :: re) (String a s) pos go gc
  = if Ascii.eqb a c then match_here re s (S pos) go gc else None.
Proof. reflexivity. Qed.

Lemma match_close_eq (re : regex) (s : string) (pos go gc : nat) :
  match_here (GroupClose :: re) s pos go gc = match_here re s pos go pos.
Proof. reflexivity. Qed.

(** [.*?\n] runs to the first line feed. *)
Lemma lazy_line_complete (t rest : string) :
  forall pos go gc,
    contains_char LF t = false ->
    match_here [LazyDots; Chr LF] (t ++ String LF rest) pos go gc
    = Some (pos + String.length t + 1, go, gc).
Proof.
  induction t as [|a t IH]; intros pos go gc Ht; rewrite match_lazy_eq;
    cbn [append]; rewrite match_chr_eq.
  - rewrite Ascii.eqb_refl. simpl. do 3 f_equal. lia.
  - simpl in Ht. apply orb_false_iff in Ht. destruct Ht as [Ha Ht].
    rewrite Ha. cbv iota. rewrite IH by assumption.
    simpl. do 3 f_equal. lia.
Qed.

Lemma lazy_line_sound (s : string) :
  forall pos go gc e o c,
    match_here [LazyDots; Chr LF] s pos go gc = Some (e, o, c) ->
    exists t rest,
      s = t ++ String LF rest /\ contains_char LF t = false /\
      e = pos + String.length t + 1 /\ o = go /\ c = gc.
Proof.
  induction s as [|a s IH]; intros pos go gc e o c; rewrite match_lazy_eq;
    [discriminate |].
  rewrite match_chr_eq.
  destruct (Ascii.eqb_spec a LF) as [->|Hne].
  - intros H. inversion H; subst.
    exists EmptyString, s. repeat split. simpl. lia.
  - intros H. apply IH in H. destruct H as (t & rest & -> & Ht & -> & -> & ->).
    exists (String a t), rest. repeat split.
    + simpl. rewrite Ht. apply Ascii.eqb_neq in Hne. now rewrite Hne.
    + simpl. lia.
Qed.

(** [(.*?)\).*?\n]: the group runs to the first closing parenthesis of the
    line, the match to the end of the line. *)
Lemma group_line_sound (s : string) :
  forall pos go gc e o c,
    match_here [LazyDots; GroupClose; Chr ")"; LazyDots; Chr LF] s pos go gc
    = Some (e, o, c) ->
    exists g t rest,
      s = g ++ String ")" (t ++ String LF rest) /\
      contains_char LF g = false /\ contains_char ")" g = false /\
      contains_char LF t = false /\
      o = go /\ c = pos + String.length g /\
      e = pos + String.length g + 1 + String.length t + 1.
Proof.
  induction s as [|a s IH]; intros pos go gc e o c; rewrite match_lazy_eq;
    rewrite match_close_eq; [discriminate |].
  rewrite match_chr_eq.
  destruct (Ascii.eqb_spec a ")") as [->|Hne].
  - destruct (match_here [LazyDots; Chr LF] s (S pos) go pos) as [r|] eqn:E.
    + intros H. inversion H; subst r. apply lazy_line_sound in E.
      destruct E as (t & rest & -> & Ht & -> & -> & ->).
      exists EmptyString, t, rest. repeat split; try assumption; simpl; lia.
    + change (Ascii.eqb ")" LF) with false. cbv iota. intros H. apply IH in H.
      destruct H as (g & t & rest & -> & Hg & _ & Ht & _).
      assert (Hline : contains_char LF (g ++ String ")" t) = false).
      { rewrite contains_char_append. simpl. now rewrite Hg, Ht. }
      replace (g ++ String ")" (t ++ String LF rest))
        with ((g ++ String ")" t) ++ String LF rest) in E
        by (now rewrite append_assoc).
      rewrite (lazy_line_complete _ rest (S pos) go pos Hline) in E. discriminate.
  - destruct (Ascii.eqb_spec a LF) as [->|Hlf]; [discriminate |].
    intros H. apply IH in H.
    destruct H as (g & t & rest & -> & Hg & Hp & Ht & -> & -> & ->).
    exists (String a g), t, rest.
    apply Ascii.eqb_neq in Hne, Hlf.
    repeat split; try assumption; simpl; try lia.
    + now rewrite Hlf.
    + now rewrite Hne.
Qed.

Lemma group_line_complete (g t rest : string) :
  forall pos go gc,
    contains_char LF g = false -> contains_char ")" g = false ->
    contains_char LF t = false ->
    match_here [LazyDots; GroupClose; Chr ")"; LazyDots; Chr LF]
               (g ++ String ")" (t ++ String LF rest)) pos go gc
    = Some (pos + String.length g + 1 + String.length t + 1, go, pos + String.length g).
Proof.
  induction g as [|a g IH]; intros pos go gc Hg Hp Ht; rewrite match_lazy_eq;
    rewrite match_close_eq; cbn [append]; rewrite match_chr_eq.
  - rewrite Ascii.eqb_refl, lazy_line_complete by assumption.
    simpl. do 3 f_equal; lia.
  - simpl in Hg, Hp. apply orb_false_iff in Hg, Hp.
    destruct Hg as [Ha Hg]. destruct Hp as [Ha' Hp].
    rewrite Ha', Ha. cbv iota. rewrite IH by assumption.
    simpl. do 3 f_equal; lia.
Qed.

(** A match of [FONT_URL_RE] at the head of [s]: the nine characters of
    "src: url(", group 1 up to the first closing parenthesis, the rest of
    the line and its line feed; group 1 and the rest hold no line feed. *)
Lemma font_url_match_iff (s : string) (pos go gc e o c : nat) :
  match_here FONT_URL_RE s pos go gc = Some (e, o, c) <->
  exists g t rest,
    s = "src: url(" ++ g ++ ")" ++ t ++ String LF rest /\
    contains_char LF g = false /\ contains_char ")" g = false /\
    contains_char LF t = false /\
    o = pos + 9 /\ c = pos + 9 + String.length g /\
    e = pos + 9 + String.length g + 1 + String.length t + 1.
Proof.
  unfold FONT_URL_RE. split.
  - intros H. destruct (match_literal_inv _ _ _ _ _ _ H) as [s' ->].
    rewrite match_literal in H.
    change (match_here _ s' (pos + String.length "src: url(") go gc)
      with (match_here [LazyDots; GroupClose; Chr ")"; LazyDots; Chr LF] s'
                       (pos + 9) (pos + 9) gc) in H.
    apply group_line_sound in H.
    destruct H as (g & t & rest & -> & Hg & Hp & Ht & -> & -> & ->).
    exists g, t, rest. repeat split; assumption || lia.
  - intros (g & t & rest & -> & Hg & Hp & Ht & -> & -> & ->).
    rewrite match_literal.
    change (match_here _ (g ++ ")" ++ t ++ String LF rest)
                       (pos + String.length "src: url(") go gc)
      with (match_here [LazyDots; GroupClose; Chr ")"; LazyDots; Chr LF]
                       (g ++ String ")" (t ++ String LF rest)) (pos + 9) (pos + 9) gc).
    rewrite group_line_complete by assumption. do 3 f_equal; lia.
Qed.

(** ** Slices *)

Lemma substring_all (s : string) : substring 0 (String.length s) s = s.
Proof. induction s as [|c s IH]; simpl; [reflexivity | now rewrite IH]. Qed.

Lemma substring_plus (s : string) :
  forall n m1 m2,
    substring n (m1 + m2) s = substring n m1 s ++ substring (n + m1) m2 s.
Proof.
  induction s as [|c s IH]; intros n m1 m2.
  - destruct n, m1, m2; reflexivity.
  - destruct n as [|n].
    + destruct m1 as [|m1]; [reflexivity |].
      simpl. now rewrite IH.
    + simpl. apply IH.
Qed.

Lemma length_substring_prefix (s : string) :
  forall a, a <= String.length s -> String.length (substring 0 a s) = a.
Proof.
  induction s as [|c s IH]; intros [|a] H; simpl in *; try reflexivity; try lia.
  rewrite IH; lia.
Qed.

(** A text is what precedes a span, the span, and what follows it. *)
Lemma slices_cover (s : string) (a b : nat) :
  a <= b -> b <= String.length s ->
  s = slice 0 a s ++ slice a b s ++ slice_from b s.
Proof.
  intros Hab Hb. unfold slice, slice_from. rewrite Nat.sub_0_r.
  transitivity (substring 0 (a + ((b - a) + (String.length s - b))) s).
  - replace (a + ((b - a) + (String.length s - b))) with (String.length s) by lia.
    symmetry. apply substring_all.
  - rewrite substring_plus. f_equal. cbn [Nat.add].
    rewrite substring_plus. f_equal. f_equal. lia.
Qed.

(** ** The span of a match lies within the text *)

Lemma match_here_bounds (re : regex) :
  forall s pos go gc e go' gc',
    match_here re s pos go gc = Some (e, go', gc') ->
    pos <= e <= pos + String.length s.
Proof.
  induction re as [|item re IH]; intros s pos go gc e go' gc'.
  - simpl. intros H. inversion H. lia.
  - destruct item; cbn [match_here].
    + destruct s as [|a s]; [discriminate |].
      destruct (Ascii.eqb a c); [| discriminate].
      intros H. apply IH in H. simpl. lia.
    + revert pos. induction s as [|a s IHs]; intros pos.
      * destruct (match_here re "" pos go gc) as [r|] eqn:E; [| discriminate].
        intros H. inversion H; subst r. now apply IH in E.
      * destruct (match_here re (String a s) pos go gc) as [r|] eqn:E.
        -- intros H. inversion H; subst r. now apply IH in E.
        -- destruct (Ascii.eqb a LF); [discriminate |].
           intros H. apply IHs in H. simpl. lia.
    + intros H. now apply IH in H.
    + intros H. now apply IH in H.
Qed.

Lemma scan_bounds (re : regex) :
  forall s pos skip m,
    In m (scan re s pos skip) ->
    m_start m <= m_end m /\ m_end m <= pos + String.length s.
Proof.
  induction s as [|c s IH]; intros pos skip m; cbn [scan].
  - destruct skip; [| intros []].
    destruct (match_here re "" pos pos pos) as [[[e go] gc]|] eqn:E; [| intros []].
    intros [<- | []]. apply match_here_bounds in E. simpl in *. lia.
  - destruct skip as [|k].
    + destruct (match_here re (String c s) pos pos pos) as [[[e go] gc]|] eqn:E.
      * intros [<- | H].
        -- apply match_here_bounds in E. simpl in *. lia.
        -- apply IH in H. simpl. lia.
      * intros H. apply IH in H. simpl. lia.
    + intros H. apply IH in H. simpl. lia.
Qed.

Lemma finditer_bounds (re : regex) (text : string) (m : re_match) :
  In m (finditer re text) ->
  m_start m <= m_end m /\ m_end m <= String.length text.
Proof. intros H. apply scan_bounds in H. simpl in H. exact H. Qed.

(** C9: in a text with exactly one match of [FONT_URL_RE] the substitution
    only touches the span of that match: the text is a prefix, the matched
    span and a suffix, and the result of [sub] is the same prefix, the
    expansion of the replacement and the same suffix.  A replacement
    without a backslash always goes through and is its own expansion. *)
Theorem sub_frame :
  forall (P : platform) (text repl : string) (m : re_match),
    finditer FONT_URL_RE text = [m] ->
    (contains_char "\" repl = false ->
     re_sub P FONT_URL_RE repl text
     = Ok (slice 0 (m_start m) text ++ repl ++ slice_from (m_end m) text)) /\
    (forall out,
        re_sub P FONT_URL_RE repl text = Ok out ->
        exists pre post expansion,
          text = pre ++ group0 m text ++ post /\
          out = pre ++ expansion ++ post /\
          String.length pre = m_start m /\
          pre = slice 0 (m_start m) text /\
          post = slice_from (m_end m) text /\
          (contains_char "\" repl = false -> expansion = repl)).
Proof.
  intros P text repl m Hone.
  assert (Hb : m_start m <= m_end m /\ m_end m <= String.length text).
  { apply (finditer_bounds FONT_URL_RE). rewrite Hone. now left. }
  split.
  - intros Hlit. unfold re_sub. rewrite Hlit, Hone. reflexivity.
  - intros out. unfold re_sub. rewrite Hone.
    destruct (contains_char "\" repl) eqn:Hlit.
    + destruct (compile_repl P repl) as [expand|msg]; [| discriminate].
      intros H. inversion H; subst out. cbn [rebuild].
      exists (slice 0 (m_start m) text), (slice_from (m_end m) text),
        (expand [group0 m text; group1 m text]).
      repeat split; try discriminate.
      * apply slices_cover; lia.
      * unfold slice. rewrite Nat.sub_0_r. apply length_substring_prefix. lia.
    + intros H. inversion H; subst out. cbn [rebuild].
      exists (slice 0 (m_start m) text), (slice_from (m_end m) text), repl.
      repeat split.
      * apply slices_cover; lia.
      * unfold slice. rewrite Nat.sub_0_r. apply length_substring_prefix. lia.
Qed.

Lemma sub_frame_witness :
  re_sub (Mock.platform_of Mock.good) FONT_URL_RE
    ("src: url('b-700.woff2') format('woff2')," ++ newline ++
     "       url('b-700.woff') format('woff');" ++ newline)
    (Mock.face "https://fonts.example/f700.woff2" "woff2")
  = Ok (Mock.rewritten "b-700.woff" "b-700.woff2").
Proof.
  refine (eq_trans
            (proj1 (sub_frame (Mock.platform_of Mock.good)
                      (Mock.face "https://fonts.example/f700.woff2" "woff2")
                      ("src: url('b-700.woff2') format('woff2')," ++ newline ++
                       "       url('b-700.woff') format('woff');" ++ newline)
                      (m := mk_match 43 103 52 84) _) _) _).
  - vm_compute. reflexivity.
  - vm_compute. reflexivity.
  - vm_compute. reflexivity.
Defined.

(* ================================================================= *)
(** * Further properties of the script *)

(** ** No weights *)

(** With an empty list of weights nothing is requested and nothing is
    printed: the bundle holds the CSS file alone, and it is empty. *)
Theorem download_no_weights :
  forall (P : platform) family subsets italic (s0 : state P),
    download_font_files family [] subsets italic s0
    = (Ok [(Spec.base_filename family subsets ++ ".css", [])], s0).
Proof.
  intros P family subsets italic s0.
  rewrite download_font_files_eq. cbv zeta.
  now destruct italic.
Qed.

(** ** One iteration of the inner loop that goes through *)

Lemma fetch_format_ok_full {P : platform} family subsets base w fmt l
    (s : state P) l' s' :
  fetch_format family subsets base w fmt l s = (Ok l', s') ->
  exists r wd m r' wd' ext,
    http_get P (css_request (family ++ ":" ++ w) subsets fmt) (world s)
    = (Answered r, wd) /\
    is_failure_status (r_status_code r) = false /\
    finditer FONT_URL_RE (r_text r) = [m] /\
    http_get P (font_request (group1 m (r_text r)) fmt) wd = (Answered r', wd') /\
    is_failure_status (r_status_code r') = false /\
    url_extension (group1 m (r_text r)) = Ok ext /\
    l' = {| css := css l;
            files := dict_set (files l) (font_key base w ext) (r_content r');
            font_format_filenames :=
              (font_format_filenames l ++ [(fmt, font_key base w ext)])%list;
            css_part := Some (r_text r) |} /\
    s' = after s wd' [r_url r; r_url r'].
Proof.
  rewrite fetch_format_eq.
  destruct (http_get P _ (world s)) as [[r|msg] wd] eqn:Hcss; [| discriminate].
  destruct (is_failure_status (r_status_code r)) eqn:Hok; [discriminate |].
  destruct (finditer FONT_URL_RE (r_text r)) as [|m [|m' ms]] eqn:Hm;
    [discriminate | | discriminate].
  cbv zeta.
  destruct (http_get P _ wd) as [[r'|msg] wd'] eqn:Hfont; [| discriminate].
  destruct (is_failure_status (r_status_code r')) eqn:Hok'; [discriminate |].
  destruct (local_filename base w (group1 m (r_text r))) as [name|e] eqn:Hn;
    [| discriminate].
  intros H. inversion H; subst l' s'. clear H.
  apply local_filename_font_key in Hn. destruct Hn as (ext & Hext & ->).
  exists r, wd, m, r', wd', ext. repeat split; assumption.
Qed.

(** ** The diagnostic lines *)

Lemma prints_refl {P : platform} {A} (s : state P) (a : A) : prints s s (Ok a) 0.
Proof. exists []. rewrite app_nil_r. repeat split; auto. Qed.

Lemma prints_after {P : platform} {A} (s : state P) (w : World P)
    (lines : list string) (r : result A) (k : nat) :
  List.length lines <= k ->
  (forall a, r = Ok a -> List.length lines = k) ->
  prints s (after s w lines) r k.
Proof. intros H1 H2. exists lines. now repeat split. Qed.

Lemma fetch_format_prints {P : platform} family subsets base w fmt l
    (s : state P) r s' :
  fetch_format family subsets base w fmt l s = (r, s') -> prints s s' r 2.
Proof.
  rewrite fetch_format_eq.
  destruct (http_get P _ (world s)) as [[rc|msg] wd].
  2: { intros H; inversion H; subst. apply prints_after; simpl; [lia | discriminate]. }
  destruct (is_failure_status (r_status_code rc)).
  { intros H; inversion H; subst. apply prints_after; simpl; [lia | discriminate]. }
  destruct (finditer FONT_URL_RE (r_text rc)) as [|m [|m' ms]].
  1, 3: intros H; inversion H; subst; apply prints_after; simpl; [lia | discriminate].
  cbv zeta.
  destruct (http_get P _ wd) as [[rf|msg] wd'].
  2: { intros H; inversion H; subst. apply prints_after; simpl; [lia | discriminate]. }
  destruct (is_failure_status (r_status_code rf)).
  { intros H; inversion H; subst. apply prints_after; simpl; [lia | discriminate]. }
  destruct (local_filename base w (group1 m (r_text rc)));
    intros H; inversion H; subst; apply prints_after; simpl; auto.
Qed.

Lemma for_each_prints {P : platform} {X L} (body : X -> L -> M P L) (k : nat) :
  (forall x l s r s', body x l s = (r, s') -> prints s s' r k) ->
  forall xs l s r s',
    for_each xs body l s = (r, s') -> prints s s' r (k * List.length xs).
Proof.
  intros Hbody. induction xs as [|x xs IH]; intros l s r s'; simpl.
  - unfold ret. intros H. inversion H; subst. rewrite Nat.mul_0_r. apply prints_refl.
  - unfold bind. destruct (body x l s) as [[l1|e] s1] eqn:E.
    + intros H. apply IH in H. apply Hbody in E.
      destruct E as (lines1 & E1 & Hle1 & Hok1).
      destruct H as (lines2 & E2 & Hle2 & Hok2).
      exists (lines1 ++ lines2)%list. rewrite E2, E1, <- app_assoc.
      split; [reflexivity |]. rewrite length_app.
      specialize (Hok1 l1 eq_refl). split; [lia |].
      intros a Ha. specialize (Hok2 a Ha). lia.
    + intros H. inversion H; subst. apply Hbody in E.
      destruct E as (lines & E1 & Hle & _).
      exists lines. split; [assumption |]. split; [lia | discriminate].
Qed.

Lemma process_weight_prints {P : platform} family subsets base w l
    (s : state P) r s' :
  process_weight family subsets base w l s = (r, s') -> prints s s' r 4.
Proof.
  rewrite process_weight_eq.
  destruct (for_each FONT_FORMATS _ (start_weight l) s) as [[l1|e] s1] eqn:E;
    apply (@for_each_prints P _ _ _ 2
             (fun x l s r s' => @fetch_format_prints P family subsets base w x l s r s')) in E;
    simpl in E; destruct E as (lines & E1 & Hle & Hok).
  - specialize (Hok l1 eq_refl).
    destruct (css_part l1) as [c|];
      [destruct (re_sub P FONT_URL_RE _ c) |];
      intros H; inversion H; subst; exists lines; repeat split; auto; lia.
  - intros H; inversion H; subst. exists lines.
    repeat split; [assumption | assumption | discriminate].
Qed.

(** Whatever the outcome, [download_font_files] only adds lines to stderr,
    at most four for every weight of the expanded list; when it returns it
    has added exactly four for every weight. *)
Theorem stderr_lines :
  forall (P : platform) family weights subsets italic (s0 : state P) r s',
    download_font_files family weights subsets italic s0 = (r, s') ->
    exists lines,
      stderr s' = (stderr s0 ++ lines)%list /\
      List.length lines <= 4 * List.length (expand_weights weights italic) /\
      (forall bundle, r = Ok bundle ->
                      List.length lines = 4 * List.length (expand_weights weights italic)).
Proof.
  intros P family weights subsets italic s0 r s'.
  rewrite download_font_files_eq. cbv zeta.
  destruct (for_each _ _ initial_locals s0) as [[l|e] s] eqn:E;
    apply (@for_each_prints P _ _ _ 4
             (fun x l s r s' => @process_weight_prints P family subsets _ x l s r s')) in E;
    destruct E as (lines & E1 & Hle & Hok); intros H; inversion H; subst;
    exists lines; repeat split; try assumption.
  - intros bundle _. now apply (Hok l).
  - discriminate.
Qed.

Lemma stderr_lines_witness :
  exists lines,
    stderr Mock.good_final = (stderr (Mock.start Mock.good) ++ lines)%list /\
    List.length lines <= 4 * List.length (expand_weights ["700"] false) /\
    (forall bundle, Ok Mock.good_bundle = Ok bundle ->
                    List.length lines = 4 * List.length (expand_weights ["700"] false)).
Proof.
  refine (stderr_lines (P := Mock.platform_of Mock.good)
            "Open Sans" ["700"] ["latin"] false (Mock.start Mock.good) _).
  vm_compute. reflexivity.
Defined.

(** ** The matches found in a text *)

Lemma substring_skip (pre s : string) (k n : nat) :
  substring (String.length pre + k) n (pre ++ s) = substring k n s.
Proof. induction pre as [|c pre IH]; simpl; [reflexivity | exact IH]. Qed.

Lemma substring_prefix (a b : string) :
  substring 0 (String.length a) (a ++ b) = a.
Proof.
  induction a as [|c a IH]; simpl; [now destruct b | now rewrite IH].
Qed.

Lemma scan_match (re : regex) :
  forall s pos skip m,
    In m (scan re s pos skip) ->
    exists pre suf,
      s = pre ++ suf /\
      m_start m = pos + String.length pre /\
      match_here re suf (m_start m) (m_start m) (m_start m)
      = Some (m_end m, g1_start m, g1_end m).
Proof.
  induction s as [|c s IH]; intros pos skip m; cbn [scan].
  - destruct skip; [| intros []].
    destruct (match_here re "" pos pos pos) as [[[e go] gc]|] eqn:E; [| intros []].
    intros [<- | []]. exists EmptyString, EmptyString. simpl.
    rewrite Nat.add_0_r. now repeat split.
  - assert (Hrec : forall k, In m (scan re s (S pos) k) ->
                             exists pre suf,
                               String c s = pre ++ suf /\
                               m_start m = pos + String.length pre /\
                               match_here re suf (m_start m) (m_start m) (m_start m)
                               = Some (m_end m, g1_start m, g1_end m)).
    { intros k H. apply IH in H. destruct H as (pre & suf & -> & Hs & Hm).
      exists (String c pre), suf. simpl. repeat split; [lia | assumption]. }
    destruct skip as [|k]; [| apply Hrec].
    destruct (match_here re (String c s) pos pos pos) as [[[e go] gc]|] eqn:E;
      [| apply Hrec].
    intros [<- | H]; [| now apply Hrec in H].
    exists EmptyString, (String c s). simpl. rewrite Nat.add_0_r. now repeat split.
Qed.

(** Every match of [FONT_URL_RE] in a text, with its groups. *)
Lemma finditer_match_shape (text : string) (m : re_match) :
  In m (finditer FONT_URL_RE text) ->
  exists pre g t post,
    text = pre ++ "src: url(" ++ g ++ ")" ++ t ++ newline ++ post /\
    String.length pre = m_start m /\
    group0 m text = "src: url(" ++ g ++ ")" ++ t ++ newline /\
    group1 m text = g /\
    contains_char ")" g = false /\
    contains_char LF g = false /\
    contains_char LF t = false.
Proof.
  intros H. apply scan_match in H.
  destruct H as (pre & suf & -> & Hstart & Hm). simpl in Hstart.
  apply font_url_match_iff in Hm.
  destruct Hm as (g & t & rest & -> & Hg & Hp & Ht & Ho & Hc & He).
  exists pre, g, t, rest. repeat split; try assumption; try (symmetry; assumption).
  - unfold group0, slice. rewrite He, Hstart.
    replace (String.length pre + 9 + String.length g + 1 + String.length t + 1
             - String.length pre)
      with (String.length ("src: url(" ++ g ++ ")" ++ t ++ newline)).
    + rewrite <- (Nat.add_0_r (String.length pre)), substring_skip.
      change ("src: url(" ++ g ++ ")" ++ t ++ String LF rest)
        with ("src: url(" ++ g ++ ")" ++ t ++ newline ++ rest).
      rewrite <- !append_assoc. rewrite substring_prefix.
      now rewrite !append_assoc.
    + rewrite !length_append. simpl. lia.
  - unfold group1, slice. rewrite Ho, Hc, Hstart.
    replace (String.length pre + 9 + String.length g - (String.length pre + 9))
      with (String.length g) by lia.
    rewrite substring_skip.
    change (substring 9 (String.length g) ("src: url(" ++ g ++ ")" ++ t ++ String LF rest))
      with (substring 0 (String.length g) (g ++ ")" ++ t ++ String LF rest)).
    apply substring_prefix.
Qed.

(** Every match reported by [finditer] for [FONT_URL_RE] is a declaration
    "src: url(" g ")" t followed by a line feed; group 1 is [g], the text up
    to the first closing parenthesis, and neither [g] nor [t] holds a line
    feed. *)
Theorem font_url_matches :
  forall (text : string) (m : re_match),
    In m (finditer FONT_URL_RE text) ->
    m_end m <= String.length text /\
    exists pre g t post,
      text = pre ++ "src: url(" ++ g ++ ")" ++ t ++ newline ++ post /\
      String.length pre = m_start m /\
      group0 m text = "src: url(" ++ g ++ ")" ++ t ++ newline /\
      group1 m text = g /\
      contains_char ")" g = false /\
      contains_char LF g = false /\
      contains_char LF t = false.
Proof.
  intros text m Hin. split.
  - now apply (finditer_bounds FONT_URL_RE).
  - destruct (finditer_match_shape _ _ Hin)
      as (pre & g & t & post & H1 & H2 & H3 & H4 & H5 & H6 & H7).
    exists pre, g, t, post. repeat split; assumption.
Qed.

Lemma font_url_matches_witness :
  103 <= String.length (Mock.face "https://fonts.example/f700.woff2" "woff2") /\
  exists pre g t post,
    Mock.face "https://fonts.example/f700.woff2" "woff2"
    = pre ++ "src: url(" ++ g ++ ")" ++ t ++ newline ++ post /\
    String.length pre = 43 /\
    group0 (mk_match 43 103 52 84) (Mock.face "https://fonts.example/f700.woff2" "woff2")
    = "src: url(" ++ g ++ ")" ++ t ++ newline /\
    group1 (mk_match 43 103 52 84) (Mock.face "https://fonts.example/f700.woff2" "woff2")
    = g /\
    contains_char ")" g = false /\
    contains_char LF g = false /\
    contains_char LF t = false.
Proof.
  refine (font_url_matches (Mock.face "https://fonts.example/f700.woff2" "woff2")
            (mk_match 43 103 52 84) _).
  vm_compute. left. reflexivity.
Defined.

(** A text without a line feed has no match: the declaration must be
    followed by a line feed. *)
Theorem no_line_feed_no_match :
  forall text : string,
    contains_char LF text = false -> finditer FONT_URL_RE text = [].
Proof.
  intros text H.
  destruct (finditer FONT_URL_RE text) as [|m ms] eqn:E; [reflexivity |].
  assert (Hin : In m (finditer FONT_URL_RE text)) by (rewrite E; now left).
  apply finditer_match_shape in Hin.
  destruct Hin as (pre & g & t & post & -> & _).
  rewrite !contains_char_append in H.
  change (contains_char LF newline) with true in H.
  rewrite ?orb_true_l, ?orb_true_r in H. discriminate.
Qed.

Lemma no_line_feed_no_match_witness :
  finditer FONT_URL_RE "src: url(https://fonts.example/f700.woff2) format('woff2');" = [].
Proof.
  apply no_line_feed_no_match. reflexivity.
Defined.

(** ** When [download_font_files] returns *)

Section Returns.

Context {P : platform}.

Lemma fetch_format_ok_iff family subsets base w fmt l (s : state P) l' s' :
  fetch_format family subsets base w fmt l s = (Ok l', s') <->
  exists f,
    fetched family subsets w fmt s f s' /\
    l' = {| css := css l;
            files := dict_set (files l) (font_key base w (f_ext f)) (r_content (f_font f));
            font_format_filenames :=
              (font_format_filenames l ++ [(fmt, font_key base w (f_ext f))])%list;
            css_part := Some (r_text (f_css f)) |}.
Proof.
  split.
  - intros H. apply fetch_format_ok_full in H.
    destruct H as (r & wd & m & r' & wd' & ext & H1 & H2 & H3 & H4 & H5 & H6 & -> & ->).
    exists {| f_css := r; f_url := group1 m (r_text r); f_ext := ext; f_font := r' |}.
    split; [| reflexivity].
    exists wd, m, wd'. cbn [f_css f_url f_ext f_font]. now repeat split.
  - intros (f & (wd & m & wd' & H1 & H2 & H3 & H4 & H5 & H6 & H7 & ->) & ->).
    rewrite fetch_format_eq, H1, H2, H3. cbv zeta. rewrite <- H4, H5, H6.
    unfold local_filename. rewrite H7, format_filename. reflexivity.
Qed.

Lemma process_weight_ok_iff family subsets base w l (s : state P) l' s' :
  process_weight family subsets base w l s = (Ok l', s') <->
  exists f1 s1 f2 snippet,
    fetched family subsets w woff s f1 s1 /\
    fetched family subsets w woff2 s1 f2 s' /\
    snippet_of P base w (f1, f2) = Ok snippet /\
    l' = {| css := (css l ++ [snippet])%list;
            files := store_all (files l) (entries_of base w (f1, f2));
            font_format_filenames :=
              [ (woff, font_key base w (f_ext f1));
                (woff2, font_key base w (f_ext f2)) ];
            css_part := Some (r_text (f_css f2)) |}.
Proof.
  rewrite process_weight_eq. unfold FONT_FORMATS. cbn [for_each]. unfold bind at 1.
  fold woff. fold woff2. split.
  - destruct (fetch_format family subsets base w woff (start_weight l) s)
      as [[la|e] sa] eqn:Ea; [| discriminate].
    unfold bind at 1.
    destruct (fetch_format family subsets base w woff2 la sa) as [[lb|e] sb] eqn:Eb;
      [| discriminate].
    unfold ret.
    apply fetch_format_ok_iff in Ea. destruct Ea as (f1 & Hf1 & ->).
    apply fetch_format_ok_iff in Eb. destruct Eb as (f2 & Hf2 & ->).
    cbn [css_part font_format_filenames css files start_weight app].
    destruct (re_sub P FONT_URL_RE _ (r_text (f_css f2))) as [snippet|e] eqn:Es;
      [| discriminate].
    intros H. inversion H; subst.
    exists f1, sa, f2, snippet. now repeat split.
  - intros (f1 & s1 & f2 & snippet & Hf1 & Hf2 & Hs & ->).
    assert (Ea : fetch_format family subsets base w woff (start_weight l) s
                 = (Ok {| css := css l;
                          files := dict_set (files l) (font_key base w (f_ext f1))
                                            (r_content (f_font f1));
                          font_format_filenames := [(woff, font_key base w (f_ext f1))];
                          css_part := Some (r_text (f_css f1)) |}, s1)).
    { apply fetch_format_ok_iff. exists f1. now split. }
    rewrite Ea. unfold bind at 1.
    match goal with
    | |- context [fetch_format _ _ _ _ woff2 ?la s1] =>
        assert (Eb : fetch_format family subsets base w woff2 la s1
                     = (Ok {| css := css l;
                              files := store_all (files l) (entries_of base w (f1, f2));
                              font_format_filenames :=
                                [ (woff, font_key base w (f_ext f1));
                                  (woff2, font_key base w (f_ext f2)) ];
                              css_part := Some (r_text (f_css f2)) |}, s'))
    end.
    { apply fetch_format_ok_iff. exists f2. now split. }
    rewrite Eb. unfold ret.
    cbn [css_part font_format_filenames css files].
    unfold snippet_of in Hs. cbn [fst snd] in Hs. rewrite Hs. reflexivity.
Qed.

Lemma weights_loop_ok_run family subsets base ws :
  forall l (s : state P) l' s',
    for_each ws (process_weight family subsets base) l s = (Ok l', s') ->
    exists fs snippets,
      run_weights family subsets base ws s fs snippets s' /\
      css l' = (css l ++ snippets)%list /\
      files l' = store_all (files l) (all_entries base ws fs).
Proof.
  induction ws as [|w ws IH]; intros l s l' s'; cbn [for_each].
  - unfold ret. intros H. inversion H; subst. exists [], [].
    repeat split; [constructor | now rewrite app_nil_r].
  - unfold bind.
    destruct (process_weight family subsets base w l s) as [[l1|e] s1] eqn:E;
      [| discriminate].
    intros H. apply IH in H. destruct H as (fs & snippets & Hrun & Hcss & Hfiles).
    apply process_weight_ok_iff in E.
    destruct E as (f1 & sa & f2 & snippet & Hf1 & Hf2 & Hs & ->).
    exists ((f1, f2) :: fs), (snippet :: snippets).
    cbn [css files] in Hcss, Hfiles. repeat split.
    + econstructor; eassumption.
    + rewrite Hcss, <- app_assoc. reflexivity.
    + rewrite Hfiles. cbn [all_entries]. now rewrite store_all_app.
Qed.

Lemma run_weights_loop family subsets base ws (s : state P) fs snippets s' :
  run_weights family subsets base ws s fs snippets s' ->
  forall l,
  exists l',
    for_each ws (process_weight family subsets base) l s = (Ok l', s') /\
    css l' = (css l ++ snippets)%list /\
    files l' = store_all (files l) (all_entries base ws fs).
Proof.
  induction 1 as [s | w ws s s1 s2 s' f1 f2 snippet fs snippets Hf1 Hf2 Hs Hrest IH];
    intros l; cbn [for_each].
  - exists l. unfold ret. repeat split. now rewrite app_nil_r.
  - assert (E : process_weight family subsets base w l s
                = (Ok {| css := (css l ++ [snippet])%list;
                         files := store_all (files l) (entries_of base w (f1, f2));
                         font_format_filenames :=
                           [ (woff, font_key base w (f_ext f1));
                             (woff2, font_key base w (f_ext f2)) ];
                         css_part := Some (r_text (f_css f2)) |}, s2)).
    { apply process_weight_ok_iff. exists f1, s1, f2, snippet. now repeat split. }
    unfold bind. rewrite E.
    destruct (IH {| css := (css l ++ [snippet])%list;
                    files := store_all (files l) (entries_of base w (f1, f2));
                    font_format_filenames :=
                      [ (woff, font_key base w (f_ext f1));
                        (woff2, font_key base w (f_ext f2)) ];
                    css_part := Some (r_text (f_css f2)) |})
      as (l' & Hl' & Hcss & Hfiles).
    exists l'. cbn [css files] in Hcss, Hfiles. repeat split.
    + exact Hl'.
    + rewrite Hcss, <- app_assoc. reflexivity.
    + rewrite Hfiles. cbn [all_entries]. now rewrite store_all_app.
Qed.

End Returns.

Lemma download_ok_run {P : platform} family weights subsets italic
    (s0 : state P) bundle s' :
  download_font_files family weights subsets italic s0 = (Ok bundle, s') ->
  exists fs snippets,
    run_weights family subsets (Spec.base_filename family subsets)
                (expand_weights weights italic) s0 fs snippets s' /\
    bundle = store_all []
               (all_entries (Spec.base_filename family subsets)
                            (expand_weights weights italic) fs ++
                [(Spec.base_filename family subsets ++ ".css",
                  encode_utf8 (join newline snippets))]).
Proof.
  rewrite download_font_files_eq. cbv zeta.
  destruct (for_each _ _ initial_locals s0) as [[l|e] s] eqn:E; [| discriminate].
  intros H. inversion H; subst. clear H.
  apply weights_loop_ok_run in E. destruct E as (fs & snippets & Hrun & Hcss & Hfiles).
  cbn [initial_locals css files app] in Hcss, Hfiles.
  exists fs, snippets. split; [assumption |].
  now rewrite store_all_app, <- Hfiles, Hcss.
Qed.

Lemma run_download_ok {P : platform} family weights subsets italic
    (s0 : state P) fs snippets s' :
  run_weights family subsets (Spec.base_filename family subsets)
              (expand_weights weights italic) s0 fs snippets s' ->
  download_font_files family weights subsets italic s0
  = (Ok (store_all []
           (all_entries (Spec.base_filename family subsets)
                        (expand_weights weights italic) fs ++
            [(Spec.base_filename family subsets ++ ".css",
              encode_utf8 (join newline snippets))])), s').
Proof.
  intros Hrun. rewrite download_font_files_eq. cbv zeta.
  destruct (run_weights_loop Hrun initial_locals) as (l' & -> & Hcss & Hfiles).
  cbn [initial_locals css files app] in Hcss, Hfiles.
  now rewrite store_all_app, <- Hfiles, Hcss.
Qed.

(** [download_font_files] returns exactly when the loop over the expanded
    weights goes through: for every weight, in order, the style sheet and
    the font for woff and then for woff2 are obtained and the [src]
    declaration is substituted.  The bundle then is the result of storing
    the two fonts of every weight and, last, the snippets joined by line
    feeds and encoded, under "<base>.css". *)
Theorem download_returns_iff :
  forall (P : platform) family weights subsets italic (s0 : state P) bundle s',
    let base := Spec.base_filename family subsets in
    let ws := expand_weights weights italic in
    download_font_files family weights subsets italic s0 = (Ok bundle, s')
    <->
    exists fs snippets,
      run_weights family subsets base ws s0 fs snippets s' /\
      bundle = store_all []
                 (all_entries base ws fs ++
                  [(base ++ ".css", encode_utf8 (join newline snippets))]).
Proof.
  intros P family weights subsets italic s0 bundle s' base ws. split.
  - apply download_ok_run.
  - intros (fs & snippets & Hrun & ->). now apply run_download_ok.
Qed.

Lemma download_returns_iff_witness :
  exists fs snippets,
    run_weights "Open Sans" ["latin"] "open_sans-latin" ["700"]
                (Mock.start Mock.good) fs snippets Mock.good_final /\
    Mock.good_bundle
    = store_all []
        (all_entries "open_sans-latin" ["700"] fs ++
         [("open_sans-latin.css", encode_utf8 (join newline snippets))]).
Proof.
  apply (proj1 (download_returns_iff (P := Mock.platform_of Mock.good)
                  "Open Sans" ["700"] ["latin"] false (Mock.start Mock.good)
                  Mock.good_bundle Mock.good_final)).
  vm_compute. reflexivity.
Defined.

(** ** The lines and the requests of a run that returns *)

(** The lines a weight prints: the resolved URLs of its four responses. *)
Lemma fetched_stderr {P : platform} family subsets w fmt (s : state P) f s' :
  fetched family subsets w fmt s f s' ->
  stderr s' = (stderr s ++ [r_url (f_css f); r_url (f_font f)])%list.
Proof. intros (wd & m & wd' & _ & _ & _ & _ & _ & _ & _ & ->). reflexivity. Qed.

Lemma run_weights_stderr {P : platform} family subsets base ws
    (s : state P) fs snippets s' :
  run_weights family subsets base ws s fs snippets s' ->
  stderr s' = (stderr s ++ flat_map urls_of fs)%list /\
  List.length fs = List.length ws /\
  List.length snippets = List.length ws.
Proof.
  induction 1 as [s | w ws s s1 s2 s' f1 f2 snippet fs snippets Hf1 Hf2 Hs Hrest IH].
  - simpl. now rewrite app_nil_r.
  - destruct IH as (IH1 & IH2 & IH3).
    apply fetched_stderr in Hf1, Hf2.
    rewrite IH1, Hf2, Hf1. simpl. rewrite IH2, IH3.
    repeat split. now rewrite <- !app_assoc.
Qed.

(** When [download_font_files] returns, the lines it added to stderr are,
    weight after weight, the resolved URL of the style sheet and of the font
    for woff, then the same two for woff2. *)
Theorem stderr_urls :
  forall (P : platform) family weights subsets italic (s0 : state P) bundle s',
    download_font_files family weights subsets italic s0 = (Ok bundle, s') ->
    exists fs snippets,
      run_weights family subsets (Spec.base_filename family subsets)
                  (expand_weights weights italic) s0 fs snippets s' /\
      List.length fs = List.length (expand_weights weights italic) /\
      stderr s' = (stderr s0 ++ flat_map urls_of fs)%list.
Proof.
  intros P family weights subsets italic s0 bundle s' H.
  apply download_ok_run in H. destruct H as (fs & snippets & Hrun & _).
  exists fs, snippets. split; [assumption |].
  apply run_weights_stderr in Hrun. tauto.
Qed.

Lemma stderr_urls_witness :
  exists fs snippets,
    run_weights "Open Sans" ["latin"] (Spec.base_filename "Open Sans" ["latin"])
                (expand_weights ["700"] false) (Mock.start Mock.good) fs snippets
                Mock.good_final /\
    List.length fs = List.length (expand_weights ["700"] false) /\
    stderr Mock.good_final
    = (stderr (Mock.start Mock.good) ++ flat_map urls_of fs)%list.
Proof.
  refine (stderr_urls (P := Mock.platform_of Mock.good)
            "Open Sans" ["700"] ["latin"] false (Mock.start Mock.good)
            (bundle := Mock.good_bundle) _).
  vm_compute. reflexivity.
Defined.

(** ** The requests *)

Section Logging.

Variable P : platform.

Lemma logging_get (req : request) (wl : World (logging P)) a wd :
  http_get (logging P) req wl = (a, wd) ->
  http_get P req (fst (wl : World P * list request))
  = (a, fst (wd : World P * list request)) /\
  snd (wd : World P * list request)
  = (snd (wl : World P * list request) ++ [req])%list.
Proof.
  cbn. destruct (http_get P req (fst wl)) as [a' w'].
  intros H. inversion H; subst. now split.
Qed.

Lemma fetched_log family subsets w fmt (s : state (logging P)) f s' :
  fetched family subsets w fmt s f s' ->
  request_log s'
  = (request_log s ++ [ css_request (family ++ ":" ++ w) subsets fmt;
                        font_request (f_url f) fmt ])%list.
Proof.
  intros (wd & m & wd' & H1 & _ & _ & _ & H5 & _ & _ & ->).
  apply logging_get in H1, H5. destruct H1 as [_ H1]. destruct H5 as [_ H5].
  unfold request_log, after. cbn [world].
  rewrite H5, H1, <- app_assoc. reflexivity.
Qed.

Lemma run_weights_log family subsets base ws (s : state (logging P)) fs snippets s' :
  run_weights family subsets base ws s fs snippets s' ->
  request_log s'
  = (request_log s
     ++ flat_map (requests_of family subsets) (combine ws (map font_urls_of fs)))%list.
Proof.
  induction 1 as [s | w ws s s1 s2 s' f1 f2 snippet fs snippets Hf1 Hf2 Hs Hrest IH].
  - simpl. now rewrite app_nil_r.
  - apply fetched_log in Hf1, Hf2. rewrite IH, Hf2, Hf1.
    cbn [map combine flat_map requests_of font_urls_of fst snd app].
    now rewrite <- !app_assoc.
Qed.

(** Logging changes nothing else. *)
Lemma fetch_format_erase family subsets base w fmt l (s : state (logging P)) r s' :
  fetch_format family subsets base w fmt l s = (r, s') ->
  fetch_format family subsets base w fmt l (erase s) = (r, erase s').
Proof.
  rewrite !fetch_format_eq.
  change (world (erase s)) with (fst (world s : World P * list request)).
  destruct (http_get (logging P) (css_request (family ++ ":" ++ w) subsets fmt) (world s))
    as [a wd] eqn:E.
  apply logging_get in E. destruct E as [E _]. rewrite E.
  destruct a as [rc|msg]; [| intros H; inversion H; subst; reflexivity].
  destruct (is_failure_status (r_status_code rc));
    [intros H; inversion H; subst; reflexivity |].
  destruct (finditer FONT_URL_RE (r_text rc)) as [|m [|m' ms]];
    [intros H; inversion H; subst; reflexivity | |
     intros H; inversion H; subst; reflexivity].
  cbv zeta.
  destruct (http_get (logging P) (font_request (group1 m (r_text rc)) fmt) wd)
    as [a' wd'] eqn:E'.
  apply logging_get in E'. destruct E' as [E' _]. rewrite E'.
  destruct a' as [rf|msg]; [| intros H; inversion H; subst; reflexivity].
  destruct (is_failure_status (r_status_code rf));
    [intros H; inversion H; subst; reflexivity |].
  destruct (local_filename base w (group1 m (r_text rc)));
    intros H; inversion H; subst; reflexivity.
Qed.

Lemma for_each_erase {X L} (body : X -> L -> M (logging P) L) (body' : X -> L -> M P L) :
  (forall x l s r s', body x l s = (r, s') -> body' x l (erase s) = (r, erase s')) ->
  forall xs l s r s',
    for_each xs body l s = (r, s') -> for_each xs body' l (erase s) = (r, erase s').
Proof.
  intros Hbody. induction xs as [|x xs IH]; intros l s r s'; cbn [for_each].
  - unfold ret. intros H. inversion H; subst. reflexivity.
  - unfold bind. destruct (body x l s) as [[l1|e] s1] eqn:E;
      rewrite (Hbody _ _ _ _ _ E).
    + apply IH.
    + intros H. inversion H; subst. reflexivity.
Qed.

Lemma process_weight_erase family subsets base w l (s : state (logging P)) r s' :
  process_weight family subsets base w l s = (r, s') ->
  process_weight family subsets base w l (erase s) = (r, erase s').
Proof.
  rewrite !process_weight_eq.
  destruct (for_each FONT_FORMATS _ (start_weight l) s) as [r1 s1] eqn:E.
  apply (for_each_erase _ (fetch_format (P := P) family subsets base w)
           (fun x l s r s' => @fetch_format_erase family subsets base w x l s r s')) in E.
  rewrite E. destruct r1 as [l1|e]; [| intros H; inversion H; subst; reflexivity].
  destruct (css_part l1) as [c|]; [| intros H; inversion H; subst; reflexivity].
  change (re_sub (logging P)) with (re_sub P).
  destruct (re_sub P FONT_URL_RE _ c); intros H; inversion H; subst; reflexivity.
Qed.

Lemma download_erase family weights subsets italic (s : state (logging P)) r s' :
  download_font_files family weights subsets italic s = (r, s') ->
  download_font_files family weights subsets italic (erase s) = (r, erase s').
Proof.
  rewrite !download_font_files_eq. cbv zeta.
  destruct (for_each _ _ initial_locals s) as [r1 s1] eqn:E.
  apply (for_each_erase _ (process_weight (P := P) family subsets _)
           (fun x l s r s' => @process_weight_erase family subsets _ x l s r s')) in E.
  rewrite E. destruct r1; intros H; inversion H; subst; reflexivity.
Qed.

End Logging.

Lemma fetched_names {P : platform} family subsets w fmt (s : state P) f s' :
  fetched family subsets w fmt s f s' -> names_font f.
Proof.
  intros (wd & m & wd' & _ & _ & Hm & Hu & _). now exists m.
Qed.

Lemma run_weights_names {P : platform} family subsets base ws
    (s : state P) fs snippets s' :
  run_weights family subsets base ws s fs snippets s' ->
  Forall (fun ff => names_font (fst ff) /\ names_font (snd ff)) fs.
Proof.
  induction 1 as [s | w ws s s1 s2 s' f1 f2 snippet fs snippets Hf1 Hf2 Hs Hrest IH];
    constructor; [| assumption].
  split; cbn [fst snd]; eapply fetched_names; eassumption.
Qed.

(** Run against a platform that also records the requests it is sent,
    [download_font_files] behaves as against the platform itself, whether
    it returns or raises.  When it returns, every weight obtained a style
    sheet and a font for woff and for woff2, each font URL being the one
    named by the only match in its style sheet, and the requests sent are
    four for every weight, in order: the style sheet for woff, the font it
    names, the style sheet for woff2, the font it names, each font with the
    User-Agent of its style sheet. *)
Theorem requests_of_a_run :
  forall (P : platform) family weights subsets italic
         (s0 : state (logging P)) r s',
    download_font_files family weights subsets italic s0 = (r, s') ->
    download_font_files family weights subsets italic (erase s0) = (r, erase s') /\
    (forall bundle, r = Ok bundle ->
     exists (fs : list (fetch * fetch)) (snippets : list string),
       run_weights (P := logging P) family subsets (Spec.base_filename family subsets)
                   (expand_weights weights italic) s0 fs snippets s' /\
       List.length fs = List.length (expand_weights weights italic) /\
       Forall (fun ff => names_font (fst ff) /\ names_font (snd ff)) fs /\
       request_log s'
       = (request_log s0
          ++ flat_map (requests_of family subsets)
                      (combine (expand_weights weights italic)
                               (map font_urls_of fs)))%list).
Proof.
  intros P family weights subsets italic s0 r s' H.
  split; [now apply download_erase |].
  intros bundle ->.
  apply download_ok_run in H. destruct H as (fs & snippets & Hrun & _).
  exists fs, snippets. split; [exact Hrun |]. split; [| split].
  - apply run_weights_stderr in Hrun. tauto.
  - exact (run_weights_names Hrun).
  - exact (run_weights_log Hrun).
Qed.

Lemma requests_of_a_run_witness :
  let s0 : state (logging (Mock.platform_of Mock.good)) :=
    {| world := ((0, []) : World (logging (Mock.platform_of Mock.good))); stderr := [] |} in
  let s' := snd (download_font_files "Open Sans" ["700"] ["latin"] false s0) in
  download_font_files "Open Sans" ["700"] ["latin"] false (erase s0)
  = (Ok Mock.good_bundle, erase s') /\
  (forall bundle, Ok Mock.good_bundle = Ok bundle ->
   exists (fs : list (fetch * fetch)) (snippets : list string),
     run_weights (P := logging (Mock.platform_of Mock.good)) "Open Sans" ["latin"]
                 (Spec.base_filename "Open Sans" ["latin"])
                 (expand_weights ["700"] false) s0 fs snippets s' /\
     List.length fs = List.length (expand_weights ["700"] false) /\
     Forall (fun ff => names_font (fst ff) /\ names_font (snd ff)) fs /\
     request_log s'
     = (request_log s0
        ++ flat_map (requests_of "Open Sans" ["latin"])
                    (combine (expand_weights ["700"] false)
                             (map font_urls_of fs)))%list).
Proof.
  intros s0 s'.
  refine (requests_of_a_run (P := Mock.platform_of Mock.good)
            "Open Sans" ["700"] ["latin"] false s0 (r := Ok Mock.good_bundle)
            (s' := s') _).
  vm_compute. reflexivity.
Defined.

(** ** The snippet of a weight *)

Lemma append_inj_length (a b c d : string) :
  a ++ b = c ++ d -> String.length a = String.length c -> a = c /\ b = d.
Proof.
  revert c. induction a as [|x a IH]; intros [|y c] H Hlen; simpl in *;
    try discriminate; [now split |].
  inversion H; subst. destruct (IH c H2) as [-> ->]; [lia | now split].
Qed.

Lemma sub_single_match (P : platform) (text repl out : string) (m : re_match) :
  finditer FONT_URL_RE text = [m] ->
  re_sub P FONT_URL_RE repl text = Ok out ->
  exists pre t post expansion,
    text = pre ++ "src: url(" ++ group1 m text ++ ")" ++ t ++ newline ++ post /\
    out = pre ++ expansion ++ post /\
    contains_char LF t = false /\
    contains_char ")" (group1 m text) = false /\
    contains_char LF (group1 m text) = false /\
    (contains_char "\" repl = false -> expansion = repl).
Proof.
  intros Hone Hsub.
  assert (Hin : In m (finditer FONT_URL_RE text)) by (rewrite Hone; now left).
  destruct (finditer_bounds _ _ _ Hin) as [Hse Hel].
  destruct (finditer_match_shape _ _ Hin)
    as (pre & g & t & post & Htext & Hlen & Hg0 & Hg1 & Hp & Hg & Ht).
  assert (Htext' : text = pre ++ (group0 m text ++ post)).
  { rewrite Hg0, Htext at 1. now rewrite !append_assoc. }
  pose proof (slices_cover text Hse Hel) as Hcover.
  fold (group0 m text) in Hcover.
  rewrite Htext' in Hcover at 1.
  apply append_inj_length in Hcover;
    [| unfold slice; rewrite Nat.sub_0_r, length_substring_prefix; lia].
  destruct Hcover as [HA HB].
  apply append_inj_length in HB; [| reflexivity]. destruct HB as [_ HB].
  unfold re_sub in Hsub. rewrite Hone in Hsub. cbn [rebuild] in Hsub.
  rewrite <- HA, <- HB in Hsub. rewrite Hg1.
  destruct (contains_char "\" repl) eqn:Hlit.
  - destruct (compile_repl P repl) as [expand|msg]; [| discriminate].
    inversion Hsub; subst out.
    exists pre, t, post, (expand [group0 m text; g]).
    repeat split; try assumption; [now rewrite Hg1 | discriminate].
  - inversion Hsub; subst out.
    exists pre, t, post, repl. repeat split; assumption.
Qed.

Lemma src_text_two (n_woff n_woff2 : string) :
  Spec.src_text [(woff, n_woff); (woff2, n_woff2)]
  = "src: url('" ++ n_woff2 ++ "') format('woff2')," ++ newline ++
    "       url('" ++ n_woff ++ "') format('woff');" ++ newline.
Proof.
  unfold Spec.src_text, Spec.entry_text, join. cbn.
  repeat (rewrite ?append_assoc; cbn). reflexivity.
Qed.

(** A weight that goes through adds to the CSS the style sheet it obtained
    for woff2 with one change: the declaration "src: url(...)" up to the end
    of its line is replaced, and what precedes and follows it is kept.  When
    the names of the two files hold no backslash, the replacement is the new
    [src] declaration itself. *)
Theorem snippet_of_a_weight :
  forall (P : platform) family subsets base w l (s : state P) l' s',
    process_weight family subsets base w l s = (Ok l', s') ->
    exists f1 s1 f2 pre t post expansion,
      fetched family subsets w woff s f1 s1 /\
      fetched family subsets w woff2 s1 f2 s' /\
      r_text (f_css f2)
      = pre ++ "src: url(" ++ f_url f2 ++ ")" ++ t ++ newline ++ post /\
      contains_char LF t = false /\
      css l' = (css l ++ [(pre ++ expansion ++ post)%string])%list /\
      (contains_char "\" (font_key base w (f_ext f1)) = false ->
       contains_char "\" (font_key base w (f_ext f2)) = false ->
       expansion
       = "src: url('" ++ font_key base w (f_ext f2) ++ "') format('woff2')," ++ newline ++
         "       url('" ++ font_key base w (f_ext f1) ++ "') format('woff');" ++ newline).
Proof.
  intros P family subsets base w l s l' s' H.
  apply process_weight_ok_iff in H.
  destruct H as (f1 & s1 & f2 & snippet & Hf1 & Hf2 & Hs & ->).
  pose proof Hf2 as (wd & m & wd' & _ & _ & Hone & Hurl & _).
  unfold snippet_of in Hs. cbn [fst snd] in Hs.
  destruct (sub_single_match _ _ _ Hone Hs)
    as (pre & t & post & expansion & Htext & -> & Ht & _ & _ & Hlit).
  rewrite <- Hurl in Htext.
  exists f1, s1, f2, pre, t, post, expansion.
  repeat split; try assumption.
  intros Hb1 Hb2. rewrite <- src_text_two. apply Hlit.
  rewrite src_text_two, !contains_char_append, Hb1, Hb2. reflexivity.
Qed.

Lemma snippet_of_a_weight_witness :
  exists f1 s1 f2 pre t post expansion,
    fetched "Open Sans" ["latin"] "700" woff (Mock.start Mock.good) f1 s1 /\
    fetched "Open Sans" ["latin"] "700" woff2 s1 f2 Mock.good_final /\
    r_text (f_css f2)
    = pre ++ "src: url(" ++ f_url f2 ++ ")" ++ t ++ newline ++ post /\
    contains_char LF t = false /\
    css Mock.good_weight = (css initial_locals ++ [(pre ++ expansion ++ post)%string])%list /\
    (contains_char "\" (font_key "b" "700" (f_ext f1)) = false ->
     contains_char "\" (font_key "b" "700" (f_ext f2)) = false ->
     expansion
     = "src: url('" ++ font_key "b" "700" (f_ext f2) ++ "') format('woff2')," ++ newline ++
       "       url('" ++ font_key "b" "700" (f_ext f1) ++ "') format('woff');" ++ newline).
Proof.
  refine (snippet_of_a_weight (P := Mock.platform_of Mock.good)
            "Open Sans" ["latin"] "b" "700" initial_locals (Mock.start Mock.good) _).
  vm_compute. reflexivity.
Defined.

(** ** Looking up the bundle *)

Lemma dict_get_set_same (d : dict) (k : string) (v : list byte) :
  dict_get (dict_set d k v) k = Some v.
Proof.
  induction d as [|[k' v'] d IH]; simpl.
  - now rewrite String.eqb_refl.
  - destruct (String.eqb k' k) eqn:E; simpl; rewrite E; [reflexivity | exact IH].
Qed.

Lemma dict_get_set_other (d : dict) (k k' : string) (v : list byte) :
  k' <> k -> dict_get (dict_set d k v) k' = dict_get d k'.
Proof.
  intros Hne. induction d as [|[k0 v0] d IH]; simpl.
  - apply String.eqb_neq in Hne. rewrite String.eqb_sym. now rewrite Hne.
  - destruct (String.eqb_spec k0 k) as [->|Hk]; simpl.
    + apply String.eqb_neq in Hne. rewrite String.eqb_sym. now rewrite Hne.
    + destruct (String.eqb k0 k'); [reflexivity | exact IH].
Qed.

Lemma dict_get_store_all (kvs : list (string * list byte)) :
  forall d k v,
    dict_get (store_all d kvs) k = Some v ->
    In (k, v) kvs \/ dict_get d k = Some v.
Proof.
  unfold store_all.
  induction kvs as [|[k0 v0] kvs IH]; intros d k v; simpl; [tauto |].
  intros H. apply IH in H. destruct H as [H | H]; [tauto |].
  destruct (String.eqb_spec k k0) as [->|Hne].
  - rewrite dict_get_set_same in H. inversion H; subst. left. now left.
  - rewrite dict_get_set_other in H by assumption. tauto.
Qed.

Lemma dict_get_keys (d : dict) (k : string) :
  In k (keys d) <-> exists v, dict_get d k = Some v.
Proof.
  unfold keys. induction d as [|[k' v'] d IH]; simpl.
  - split; [tauto | intros [v H]; discriminate].
  - destruct (String.eqb_spec k' k) as [->|Hne].
    + split; [eauto | tauto].
    + rewrite <- IH. tauto.
Qed.

Lemma keys_store_all_In (kvs : list (string * list byte)) (d : dict) (k : string) :
  In k (keys (store_all d kvs)) <-> In k (keys d) \/ In k (map fst kvs).
Proof.
  unfold store_all. revert d.
  induction kvs as [|[k0 v0] kvs IH]; intros d; simpl; [tauto |].
  rewrite IH, keys_dict_set.
  destruct (existsb (String.eqb k0) (keys d)) eqn:E.
  - apply existsb_eqb_In in E. split; [tauto |].
    intros [H | [<- | H]]; tauto.
  - rewrite in_app_iff. simpl. tauto.
Qed.

Lemma all_entries_key (base : string) (ws : list string) :
  forall fs k v,
    In (k, v) (all_entries base ws fs) ->
    exists w ext, In w ws /\ k = font_key base w ext.
Proof.
  induction ws as [|w ws IH]; intros [|ff fs] k v; simpl; try tauto.
  intros [H | [H | H]].
  - inversion H. exists w, (f_ext (fst ff)). split; [now left | reflexivity].
  - inversion H. exists w, (f_ext (snd ff)). split; [now left | reflexivity].
  - apply IH in H. destruct H as (w' & ext & Hin & ->). exists w', ext. split; [now right | reflexivity].
Qed.

(** In the bundle that [download_font_files] returns, the key
    "<base>.css" holds the snippets joined by line feeds and encoded; every
    other entry is a font that was downloaded, under the name made for it;
    and every name made for a font is a key of the bundle. *)
Theorem bundle_lookup :
  forall (P : platform) family weights subsets italic (s0 : state P) bundle s',
    download_font_files family weights subsets italic s0 = (Ok bundle, s') ->
    let base := Spec.base_filename family subsets in
    let ws := expand_weights weights italic in
    exists fs snippets,
      run_weights family subsets base ws s0 fs snippets s' /\
      dict_get bundle (base ++ ".css") = Some (encode_utf8 (join newline snippets)) /\
      (forall k v,
          dict_get bundle k = Some v ->
          k = base ++ ".css" \/ In (k, v) (all_entries base ws fs)) /\
      (forall k,
          In k (map fst (all_entries base ws fs)) ->
          exists v, dict_get bundle k = Some v /\ In (k, v) (all_entries base ws fs)).
Proof.
  intros P family weights subsets italic s0 bundle s' H base ws.
  apply download_ok_run in H. fold base in H. fold ws in H.
  destruct H as (fs & snippets & Hrun & ->).
  exists fs, snippets. split; [assumption |].
  rewrite store_all_app. change (store_all ?d [(?k, ?v)]) with (dict_set d k v).
  split; [apply dict_get_set_same |]. split.
  - intros k v Hget.
    destruct (String.eqb_spec k (base ++ ".css")) as [->|Hne]; [now left |].
    rewrite dict_get_set_other in Hget by assumption.
    apply dict_get_store_all in Hget. destruct Hget as [Hget | Hget]; [now right | discriminate].
  - intros k Hk.
    assert (Hne : k <> base ++ ".css").
    { apply in_map_iff in Hk. destruct Hk as ([k' v'] & <- & Hin).
      apply all_entries_key in Hin. destruct Hin as (w & ext & _ & ->).
      simpl. intros Heq. symmetry in Heq. now apply css_key_not_font_key in Heq. }
    assert (Hin : In k (keys (store_all [] (all_entries base ws fs)))).
    { apply keys_store_all_In. now right. }
    apply dict_get_keys in Hin. destruct Hin as [v Hv].
    exists v. rewrite dict_get_set_other by assumption. split; [assumption |].
    apply dict_get_store_all in Hv. destruct Hv as [Hv | Hv]; [assumption | discriminate].
Qed.

Lemma bundle_lookup_witness :
  exists fs snippets,
    run_weights "Open Sans" ["latin"] (Spec.base_filename "Open Sans" ["latin"])
                (expand_weights ["700"] false) (Mock.start Mock.good) fs snippets
                Mock.good_final /\
    dict_get Mock.good_bundle (Spec.base_filename "Open Sans" ["latin"] ++ ".css")
    = Some (encode_utf8 (join newline snippets)) /\
    (forall k v,
        dict_get Mock.good_bundle k = Some v ->
        k = Spec.base_filename "Open Sans" ["latin"] ++ ".css" \/
        In (k, v) (all_entries (Spec.base_filename "Open Sans" ["latin"])
                               (expand_weights ["700"] false) fs)) /\
    (forall k,
        In k (map fst (all_entries (Spec.base_filename "Open Sans" ["latin"])
                                   (expand_weights ["700"] false) fs)) ->
        exists v, dict_get Mock.good_bundle k = Some v /\
                  In (k, v) (all_entries (Spec.base_filename "Open Sans" ["latin"])
                                         (expand_weights ["700"] false) fs)).
Proof.
  refine (bundle_lookup (P := Mock.platform_of Mock.good)
            "Open Sans" ["700"] ["latin"] false (Mock.start Mock.good)
            (bundle := Mock.good_bundle) (s' := Mock.good_final) _).
  vm_compute. reflexivity.
Defined.

(** ** Numeric weights: distinct labels, distinct file names *)

Lemma all_digits_append (a b : string) :
  all_digits (a ++ b) = all_digits a && all_digits b.
Proof.
  induction a as [|c a IH]; simpl; [reflexivity |].
  now rewrite IH, andb_assoc.
Qed.

Lemma all_digits_not_italic (w : string) : all_digits (w ++ "italic") = false.
Proof. rewrite all_digits_append. simpl. apply andb_false_r. Qed.

Lemma all_digits_endswith (w : string) :
  all_digits w = true -> endswith w "i" = false.
Proof.
  induction w as [|c w IH]; simpl; [reflexivity |].
  intros H. apply andb_true_iff in H. destruct H as [Hc Hw].
  destruct w as [|d w]; [| now apply IH].
  destruct (Ascii.eqb_spec c "i") as [->|]; [discriminate | reflexivity].
Qed.

Lemma all_digits_no_dot (w : string) :
  all_digits w = true -> contains_char "." w = false.
Proof.
  induction w as [|c w IH]; simpl; [reflexivity |].
  intros H. apply andb_true_iff in H. destruct H as [Hc Hw].
  rewrite (IH Hw), orb_false_r.
  destruct (Ascii.eqb_spec c ".") as [->|]; [discriminate | reflexivity].
Qed.

Lemma weight_label_digits (w : string) :
  all_digits w = true -> weight_label w = w.
Proof. intros H. unfold weight_label. now rewrite (all_digits_endswith w H). Qed.

Lemma weight_label_italic (w : string) : weight_label (w ++ "i") = w ++ "italic".
Proof.
  unfold weight_label. rewrite endswith_append_char. simpl. now rewrite append_assoc.
Qed.

Lemma append_cancel_r (a b c : string) : a ++ c = b ++ c -> a = b.
Proof.
  intros H. apply append_inj_length in H; [tauto |].
  apply (f_equal String.length) in H. rewrite !length_append in H. lia.
Qed.

Lemma interleave_labels (W : list string) :
  Forall (fun w => all_digits w = true) W ->
  forall x,
    In x (map weight_label (Spec.interleave_italic W)) ->
    In x W \/ exists w, In w W /\ x = w ++ "italic".
Proof.
  induction 1 as [|w W Hw HW IH]; intros x; simpl; [tauto |].
  rewrite (weight_label_digits w Hw), weight_label_italic.
  intros [<- | [<- | H]].
  - left. now left.
  - right. exists w. split; [now left | reflexivity].
  - apply IH in H. destruct H as [H | (w' & Hin & ->)]; [tauto |].
    right. exists w'. split; [now right | reflexivity].
Qed.

Lemma interleave_labels_NoDup (W : list string) :
  NoDup W -> Forall (fun w => all_digits w = true) W ->
  NoDup (map weight_label (Spec.interleave_italic W)).
Proof.
  induction 1 as [|w W Hnotin Hnd IH]; intros HF; simpl; [constructor |].
  inversion HF as [|w0 W0 Hw HW]; subst.
  rewrite (weight_label_digits w Hw), weight_label_italic.
  assert (Hdig : forall w', In w' W -> all_digits w' = true)
    by (now apply Forall_forall).
  constructor; [| constructor; [| now apply IH]].
  - intros [H | H].
    + apply (f_equal all_digits) in H. rewrite all_digits_not_italic, Hw in H.
      discriminate.
    + apply (interleave_labels HW) in H. destruct H as [H | (w' & Hin & ->)];
        [contradiction |].
      rewrite all_digits_not_italic in Hw. discriminate.
  - intros H. apply (interleave_labels HW) in H.
    destruct H as [H | (w' & Hin & H)].
    + apply Hdig in H. rewrite all_digits_not_italic in H. discriminate.
    + apply append_cancel_r in H. now subst w'.
Qed.

Lemma interleave_labels_no_dot (W : list string) :
  Forall (fun w => all_digits w = true) W ->
  Forall (fun w => contains_char "." (weight_label w) = false) (Spec.interleave_italic W).
Proof.
  induction 1 as [|w W Hw HW IH]; simpl; constructor.
  - rewrite (weight_label_digits w Hw). now apply all_digits_no_dot.
  - constructor; [| exact IH].
    rewrite weight_label_italic, contains_char_append, (all_digits_no_dot w Hw).
    reflexivity.
Qed.

Lemma expanded_labels (W : list string) (italic : bool) :
  NoDup W -> Forall (fun w => all_digits w = true) W ->
  NoDup (map weight_label (expand_weights W italic)) /\
  Forall (fun w => contains_char "." (weight_label w) = false) (expand_weights W italic).
Proof.
  intros Hnd HF. destruct italic.
  - rewrite expand_italic_interleave. split.
    + now apply interleave_labels_NoDup.
    + now apply interleave_labels_no_dot.
  - simpl. split.
    + rewrite (map_ext_in weight_label (fun w => w)), map_id; [assumption |].
      intros w Hin. apply weight_label_digits.
      now apply (proj1 (Forall_forall _ _) HF).
    + apply Forall_forall. intros w Hin.
      pose proof (proj1 (Forall_forall _ _) HF w Hin) as Hw.
      rewrite (weight_label_digits w Hw). now apply all_digits_no_dot.
Qed.

(** For distinct weights made of digits, the labels of the expanded list
    are pairwise distinct, with or without the italic variants, and none
    holds a dot. *)
Theorem labels_of_numeric_weights :
  forall (W : list string) (italic : bool),
    NoDup W -> Forall (fun w => all_digits w = true) W ->
    NoDup (map weight_label (expand_weights W italic)) /\
    Forall (fun w => contains_char "." (weight_label w) = false)
           (expand_weights W italic).
Proof.
  intros W italic Hnd HF. destruct italic.
  - rewrite expand_italic_interleave. split.
    + now apply interleave_labels_NoDup.
    + now apply interleave_labels_no_dot.
  - now apply (expanded_labels false).
Qed.

Lemma labels_of_numeric_weights_witness :
  NoDup (map weight_label (expand_weights ["400"; "700"] true)) /\
  Forall (fun w => contains_char "." (weight_label w) = false)
         (expand_weights ["400"; "700"] true).
Proof.
  apply labels_of_numeric_weights.
  - constructor; [intros [H | []]; discriminate H |].
    constructor; [intros [] | constructor].
  - repeat constructor.
Defined.

Lemma split_at_first (c : ascii) (a b x y : string) :
  contains_char c a = false -> contains_char c b = false ->
  a ++ String c x = b ++ String c y -> a = b /\ x = y.
Proof.
  revert b. induction a as [|p a IH]; intros [|q b] Ha Hb H; simpl in *.
  - inversion H. now split.
  - inversion H; subst. rewrite Ascii.eqb_refl in Hb. discriminate.
  - inversion H; subst. rewrite Ascii.eqb_refl in Ha. discriminate.
  - inversion H; subst. apply orb_false_iff in Ha, Hb.
    destruct (IH b (proj2 Ha) (proj2 Hb) H2) as [-> ->]. now split.
Qed.

(** The name of a font file tells the weight label and the extension. *)
Lemma font_key_inj (base w w' e e' : string) :
  contains_char "." (weight_label w) = false ->
  contains_char "." (weight_label w') = false ->
  font_key base w e = font_key base w' e' ->
  weight_label w = weight_label w' /\ e = e'.
Proof.
  intros Hw Hw' H. unfold font_key in H.
  apply append_inj_length in H; [| reflexivity]. destruct H as [_ H].
  simpl in H. inversion H as [H']. now apply (split_at_first ".").
Qed.

Lemma all_entries_NoDup (base : string) (ws : list string) :
  NoDup (map weight_label ws) ->
  Forall (fun w => contains_char "." (weight_label w) = false) ws ->
  forall fs,
    (forall ff, In ff fs -> f_ext (fst ff) <> f_ext (snd ff)) ->
    NoDup (map fst (all_entries base ws fs)).
Proof.
  induction ws as [|w ws IH]; intros Hnd Hdot [|ff fs] Hext; simpl; try constructor.
  - inversion Hnd as [|l ls Hnotin Hnd']; subst.
    inversion Hdot as [|w0 ws0 Hw Hws]; subst.
    assert (Hfresh : forall e, ~ In (font_key base w e) (map fst (all_entries base ws fs))).
    { intros e Hin. apply in_map_iff in Hin. destruct Hin as ([k v] & Hk & Hin).
      simpl in Hk. subst k.
      apply all_entries_key in Hin. destruct Hin as (w' & e' & Hw' & Heq).
      apply font_key_inj in Heq; try assumption.
      - destruct Heq as [Heq _]. apply Hnotin. rewrite Heq. now apply in_map.
      - now apply (proj1 (Forall_forall _ _) Hws). }
    intros [H | H].
    + apply font_key_inj in H; try assumption. destruct H as [_ H].
      symmetry in H. revert H. apply Hext. now left.
    + now apply Hfresh in H.
  - inversion Hnd as [|l ls Hnotin Hnd']; subst.
    inversion Hdot as [|w0 ws0 Hw Hws]; subst.
    constructor.
    + intros Hin. apply in_map_iff in Hin. destruct Hin as ([k v] & Hk & Hin).
      simpl in Hk. subst k.
      apply all_entries_key in Hin. destruct Hin as (w' & e' & Hw' & Heq).
      apply font_key_inj in Heq; try assumption.
      * destruct Heq as [Heq _]. apply Hnotin. rewrite Heq. now apply in_map.
      * now apply (proj1 (Forall_forall _ _) Hws).
    + apply IH; try assumption. intros ff' Hin. apply Hext. now right.
Qed.

Lemma all_entries_length (base : string) (ws : list string) :
  forall fs, List.length fs = List.length ws ->
             List.length (all_entries base ws fs) = 2 * List.length ws.
Proof.
  induction ws as [|w ws IH]; intros [|ff fs] H; simpl in *; try lia.
  rewrite IH; lia.
Qed.

(** For distinct weights made of digits, a returned bundle has two font
    files for every weight of the expanded list, in the order of the loop,
    and the CSS file after them, provided the two font URLs of every weight
    have different extensions. *)
Theorem two_fonts_for_every_weight :
  forall (P : platform) family weights subsets italic (s0 : state P) bundle s',
    download_font_files family weights subsets italic s0 = (Ok bundle, s') ->
    NoDup weights ->
    Forall (fun w => all_digits w = true) weights ->
    let base := Spec.base_filename family subsets in
    let ws := expand_weights weights italic in
    exists fs snippets,
      run_weights family subsets base ws s0 fs snippets s' /\
      ((forall ff, In ff fs -> f_ext (fst ff) <> f_ext (snd ff)) ->
       keys bundle = (map fst (all_entries base ws fs) ++ [(base ++ ".css")%string])%list /\
       List.length (keys bundle) = 2 * List.length ws + 1).
Proof.
  intros P family weights subsets italic s0 bundle s' H Hnd Hdig base ws.
  apply download_ok_run in H. fold base in H. fold ws in H.
  destruct H as (fs & snippets & Hrun & ->).
  exists fs, snippets. split; [assumption |].
  intros Hext.
  destruct (expanded_labels italic Hnd Hdig) as [Hlab Hdot]. fold ws in Hlab, Hdot.
  assert (Hkeys : NoDup (map fst (all_entries base ws fs))).
  { now apply all_entries_NoDup. }
  assert (Hall : keys (store_all [] (all_entries base ws fs ++
                         [(base ++ ".css", encode_utf8 (join newline snippets))]))
                 = (map fst (all_entries base ws fs) ++ [(base ++ ".css")%string])%list).
  { rewrite keys_store_all, map_app. cbn [map fst keys].
    apply (keys_after_fresh _ []). cbn [app].
    apply NoDup_app; [assumption | repeat constructor; intros [] |].
    intros k Hk [<- | []].
    apply in_map_iff in Hk. destruct Hk as ([k' v'] & Hk' & Hin). simpl in Hk'.
    apply all_entries_key in Hin. destruct Hin as (w & ext & _ & ->).
    symmetry in Hk'. now apply css_key_not_font_key in Hk'. }
  split; [exact Hall |].
  rewrite Hall, length_app, length_map. simpl.
  rewrite all_entries_length; [lia |].
  apply run_weights_stderr in Hrun. tauto.
Qed.

Lemma two_fonts_for_every_weight_witness :
  exists fs snippets,
    run_weights "Open Sans" ["latin"] (Spec.base_filename "Open Sans" ["latin"])
                (expand_weights ["700"] false) (Mock.start Mock.good) fs snippets
                Mock.good_final /\
    ((forall ff, In ff fs -> f_ext (fst ff) <> f_ext (snd ff)) ->
     keys Mock.good_bundle
     = (map fst (all_entries (Spec.base_filename "Open Sans" ["latin"])
                             (expand_weights ["700"] false) fs)
        ++ [(Spec.base_filename "Open Sans" ["latin"] ++ ".css")%string])%list /\
     List.length (keys Mock.good_bundle)
     = 2 * List.length (expand_weights ["700"] false) + 1).
Proof.
  refine (@two_fonts_for_every_weight (Mock.platform_of Mock.good)
            "Open Sans" ["700"] ["latin"] false (Mock.start Mock.good)
            Mock.good_bundle Mock.good_final _ _ _).
  - vm_compute. reflexivity.
  - constructor; [intros [] | constructor].
  - repeat constructor.
Defined.

(** ** When nothing goes wrong *)

Section WellBehaved.

Variable P : platform.
Hypothesis Hwb : well_behaved P.

Lemma well_behaved_fetched family subsets w fmt (s : state P) :
  exists f s', fetched family subsets w fmt s f s'.
Proof.
  destruct Hwb as [Hget _].
  destruct (Hget (css_request (family ++ ":" ++ w) subsets fmt) (world s))
    as (r & wd & m & Hcss & Hok & Hm).
  destruct (Hm eq_refl) as [Hone Hdot].
  destruct (Hget (font_request (group1 m (r_text r)) fmt) wd)
    as (r' & wd' & m' & Hfont & Hok' & _).
  exists {| f_css := r; f_url := group1 m (r_text r);
            f_ext := Spec.after_last "." (group1 m (r_text r)); f_font := r' |}.
  eexists. exists wd, m, wd'. cbn [f_css f_url f_ext f_font].
  repeat split; try eassumption. now apply url_extension_dot.
Qed.

Lemma well_behaved_sub (repl text : string) :
  exists out, re_sub P FONT_URL_RE repl text = Ok out.
Proof.
  destruct Hwb as [_ Hrepl]. unfold re_sub.
  destruct (contains_char "\" repl); [| eauto].
  destruct (Hrepl repl) as [f ->]. eauto.
Qed.

Lemma well_behaved_run family subsets base (ws : list string) :
  forall s : state P, exists fs snippets s', run_weights family subsets base ws s fs snippets s'.
Proof.
  induction ws as [|w ws IH]; intros s.
  - exists [], [], s. constructor.
  - destruct (well_behaved_fetched family subsets w woff s) as (f1 & s1 & Hf1).
    destruct (well_behaved_fetched family subsets w woff2 s1) as (f2 & s2 & Hf2).
    destruct (well_behaved_sub
                (Spec.src_text [ (woff, font_key base w (f_ext f1));
                                 (woff2, font_key base w (f_ext f2)) ])
                (r_text (f_css f2))) as (snippet & Hs).
    destruct (IH s2) as (fs & snippets & s' & Hrun).
    exists ((f1, f2) :: fs), (snippet :: snippets), s'.
    econstructor; eassumption.
Qed.

End WellBehaved.

(** Against a platform on which every request is answered with a status
    that is no failure, every style sheet has exactly one match naming a
    URL with a dot, and every replacement template compiles,
    [download_font_files] returns a bundle, whatever its arguments; the
    bundle holds the CSS file. *)
Theorem download_returns :
  forall (P : platform),
    well_behaved P ->
    forall family weights subsets italic (s0 : state P),
    exists bundle s',
      download_font_files family weights subsets italic s0 = (Ok bundle, s') /\
      In (Spec.base_filename family subsets ++ ".css") (keys bundle).
Proof.
  intros P Hwb family weights subsets italic s0.
  destruct (well_behaved_run Hwb family subsets (Spec.base_filename family subsets)
              (expand_weights weights italic) s0) as (fs & snippets & s' & Hrun).
  eexists. exists s'. split; [now apply run_download_ok with (1 := Hrun) |].
  apply keys_store_all_In. right. rewrite map_app. apply in_or_app. right. now left.
Qed.

Lemma download_returns_witness :
  exists bundle s',
    download_font_files "Open Sans" ["400"; "700"] ["latin"] true
      (Mock.lenient_start Mock.good) = (Ok bundle, s') /\
    In (Spec.base_filename "Open Sans" ["latin"] ++ ".css") (keys bundle).
Proof.
  apply (download_returns (P := Mock.lenient_platform_of Mock.good)).
  split.
  - intros req w. cbn [http_get Mock.lenient_platform_of]. unfold Mock.get.
    destruct (String.eqb_spec (req_url req) "https://fonts.googleapis.com/css") as [Heq | Hne].
    + cbn [Mock.css_body Mock.good Mock.css_status]. unfold Mock.by_agent.
      destruct (String.eqb (req_agent req) _).
      * eexists. eexists. exists (mk_match 43 101 52 83).
        split; [reflexivity |]. split; [reflexivity |].
        intros _. split; vm_compute; reflexivity.
      * eexists. eexists. exists (mk_match 43 103 52 84).
        split; [reflexivity |]. split; [reflexivity |].
        intros _. split; vm_compute; reflexivity.
    + eexists. eexists. exists (mk_match 0 0 0 0).
      split; [reflexivity |]. split; [reflexivity |].
      intros Heq. elim Hne. exact Heq.
  - intros repl. eexists. reflexivity.
Defined.

(** ** The archive *)

Lemma format_member (dirname filename : string) :
  format "{}/{}" [dirname; filename] = Ok (dirname ++ "/" ++ filename).
Proof. cbn. now rewrite append_nil_r. Qed.

Section Recording.

Variable Z : zip_library.

Lemma recording_open (path : string) (d : Disk (recording Z)) r d' :
  zip_open (recording Z) path d = (r, d') ->
  zip_open Z path (under d) = (r, under d') /\
  calls d' = (calls d ++ [ZOpen path])%list.
Proof.
  unfold under, calls. cbn. destruct (zip_open Z path (fst d)) as [r0 d0].
  intros H. inversion H; subst. now split.
Qed.

Lemma recording_writestr (name : string) (contents : list byte)
    (d : Disk (recording Z)) r d' :
  zip_writestr (recording Z) name contents d = (r, d') ->
  zip_writestr Z name contents (under d) = (r, under d') /\
  calls d' = (calls d ++ [ZWrite name contents])%list.
Proof.
  unfold under, calls. cbn. destruct (zip_writestr Z name contents (fst d)) as [r0 d0].
  intros H. inversion H; subst. now split.
Qed.

Lemma recording_close (d : Disk (recording Z)) r d' :
  zip_close (recording Z) d = (r, d') ->
  zip_close Z (under d) = (r, under d') /\
  calls d' = (calls d ++ [ZClose])%list.
Proof.
  unfold under, calls. cbn. destruct (zip_close Z (fst d)) as [r0 d0].
  intros H. inversion H; subst. now split.
Qed.

(** The loop calls [writestr] for the entries in order, up to the first
    call that raises or to the end. *)
Lemma write_items_calls (dirname : string) (items : dict) :
  forall (d : Disk (recording Z)) r d',
    write_items (Z := recording Z) dirname items d = (r, d') ->
    write_items (Z := Z) dirname items (under d) = (r, under d') /\
    (forall e, r <> Raised e) /\
    exists n,
      n <= List.length items /\
      calls d' = (calls d ++ map (write_of dirname) (firstn n items))%list /\
      (r = Returned -> n = List.length items).
Proof.
  induction items as [|[k v] items IH]; intros d r d'; cbn [write_items].
  - intros H. inversion H; subst. split; [reflexivity |].
    split; [discriminate |]. exists 0. cbn. now rewrite app_nil_r.
  - rewrite format_member.
    destruct (zip_writestr (recording Z) (dirname ++ "/" ++ k) v d) as [[z|] d1] eqn:E;
      apply recording_writestr in E; destruct E as [E Hc]; rewrite E.
    + intros H. inversion H; subst. split; [reflexivity |].
      split; [discriminate |]. exists 1. cbn [List.length firstn map write_of fst snd].
      split; [lia |]. split; [exact Hc | discriminate].
    + intros H. apply IH in H. destruct H as (H1 & H2 & n & Hn & Hcalls & Hret).
      split; [exact H1 |]. split; [exact H2 |]. exists (S n).
      cbn [List.length firstn map write_of fst snd]. split; [lia |]. split.
      * rewrite Hcalls, Hc, <- app_assoc. reflexivity.
      * intros Hr. now rewrite (Hret Hr).
Qed.

Lemma create_zip_returned (output dirname : string) (files : dict)
    (d : Disk (recording Z)) d' :
  create_zip (Z := recording Z) output dirname files d = (Returned, d') ->
  calls d' = (calls d ++ ZOpen output :: map (write_of dirname) files ++ [ZClose])%list.
Proof.
  unfold create_zip.
  destruct (zip_open (recording Z) output d) as [[z|] d1] eqn:Eo; [discriminate |].
  apply recording_open in Eo. destruct Eo as [_ Ho].
  destruct (write_items (Z := recording Z) dirname files d1) as [r d2] eqn:Ew.
  apply write_items_calls in Ew. destruct Ew as (_ & _ & n & _ & Hw & Hret).
  destruct (zip_close (recording Z) d2) as [[z|] d3] eqn:Ec; [discriminate |].
  apply recording_close in Ec. destruct Ec as [_ Hc].
  intros H. inversion H; subst r d3.
  rewrite Hc, Hw, Ho, (Hret eq_refl), firstn_all, <- !app_assoc. reflexivity.
Qed.

End Recording.



Lemma member_names_NoDup (dirname : string) (ks : list string) :
  NoDup ks -> NoDup (map (fun k => dirname ++ "/" ++ k) ks).
Proof.
  induction 1 as [|k ks Hnotin Hnd IH]; cbn [map]; constructor; [| exact IH].
  intros Hin. apply in_map_iff in Hin. destruct Hin as (k' & Heq & Hin).
  apply append_inj_length in Heq; [| reflexivity].
  destruct Heq as [_ Heq]. inversion Heq; subst. contradiction.
Qed.

(** ** [main] *)

Lemma main_eq {P : platform} {Z : zip_library} (o : options) (s : state P) (d : Disk Z) :
  main o s d =
  match download_font_files (opt_family o) (opt_weight o) (opt_subset o) (opt_italic o) s with
  | (Ok files, s') =>
      let (r, d') := create_zip (opt_output o)
                       (Spec.base_filename (opt_family o) (opt_subset o)) files d in
      (r, s', d')
  | (Raise e, s') => (Raised e, s', d)
  end.
Proof.
  unfold main.
  destruct (download_font_files _ _ _ _ s) as [[files|e] s']; [| reflexivity].
  now rewrite get_base_filename_ok.
Qed.




(** [main] is not all or nothing: when [writestr] refuses the name of the
    second font, the archive that was at the output path is gone, and the
    one in its place holds the first font alone. *)
Example main_partial_archive :
  let run := main (Z := MockZip.library 40) MockZip.args
               (Mock.start Mock.good) MockZip.old_disk in
  fst (download_font_files "Open Sans" ["700"] ["latin"] false (Mock.start Mock.good))
  = Ok Mock.good_bundle /\
  fst (fst run) = ZipRaised MockZip.StructError /\
  map fst (MockZip.get (MockZip.archives (snd run)) "fonts.zip")
  = ["open_sans-latin/open_sans-latin-700.woff"].
Proof. vm_compute. repeat split. Qed.

Lemma bundle_keys {P : platform} family weights subsets italic (s0 : state P) bundle s' :
  download_font_files family weights subsets italic s0 = (Ok bundle, s') ->
  NoDup (keys bundle) /\
  exists ks, keys bundle = (ks ++ [(Spec.base_filename family subsets ++ ".css")%string])%list.
Proof.
  intros H. apply download_ok_run in H. destruct H as (fs & snippets & _ & ->).
  rewrite keys_store_all. split; [apply keys_after_NoDup; constructor |].
  rewrite map_app. cbn [map fst keys].
  eexists. apply keys_after_last; [intros [] |].
  intros Hin. apply in_map_iff in Hin. destruct Hin as ([k v] & Hk & Hin).
  simpl in Hk. apply all_entries_key in Hin. destruct Hin as (w & ext & _ & ->).
  symmetry in Hk. now apply css_key_not_font_key in Hk.
Qed.

(** When [main] returns, [download_font_files] has returned a bundle and
    the calls made on [zipfile] are: the archive is opened at the output
    path, every entry of the bundle is written, in the order of the bundle
    and with its content, under "<base>/<key>", and the archive is closed.
    No two members are written under the same name, and the last one is
    "<base>/<base>.css". *)
Theorem main_archive :
  forall (P : platform) (Z : zip_library) (o : options) (s : state P)
         (d : Disk (recording Z)) s' d',
    main (Z := recording Z) o s d = (Returned, s', d') ->
    let base := Spec.base_filename (opt_family o) (opt_subset o) in
    exists bundle,
      download_font_files (opt_family o) (opt_weight o) (opt_subset o) (opt_italic o) s
      = (Ok bundle, s') /\
      calls d' = (calls d ++ ZOpen (opt_output o) ::
                  map (write_of base) bundle ++ [ZClose])%list /\
      NoDup (map (fun k => base ++ "/" ++ k) (keys bundle)) /\
      last (map (fun k => base ++ "/" ++ k) (keys bundle)) EmptyString
      = base ++ "/" ++ base ++ ".css".
Proof.
  intros P Z o s d s' d'. rewrite main_eq.
  destruct (download_font_files _ _ _ _ s) as [[bundle|e] s1] eqn:E; [| discriminate].
  destruct (create_zip _ _ bundle d) as [r d1] eqn:Ez.
  intros H base. inversion H; subst r s1 d1. clear H. fold base in Ez.
  exists bundle. split; [reflexivity |].
  split; [now apply create_zip_returned |].
  destruct (bundle_keys _ _ _ _ _ E) as [Hnd [ks Hks]]. fold base in Hks.
  split; [now apply member_names_NoDup |].
  rewrite Hks, map_app. cbn [map]. apply last_last.
Qed.

Lemma main_archive_witness :
  let d : Disk (recording (MockZip.library MockZip.name_limit)) := (MockZip.old_disk, []) in
  let run := main (Z := recording (MockZip.library MockZip.name_limit)) MockZip.args
               (Mock.start Mock.good) d in
  let base := Spec.base_filename "Open Sans" ["latin"] in
  exists bundle,
    download_font_files "Open Sans" ["700"] ["latin"] false (Mock.start Mock.good)
    = (Ok bundle, snd (fst run)) /\
    calls (snd run) = (calls d ++ ZOpen "fonts.zip" ::
                       map (write_of base) bundle ++ [ZClose])%list /\
    NoDup (map (fun k => base ++ "/" ++ k) (keys bundle)) /\
    last (map (fun k => base ++ "/" ++ k) (keys bundle)) EmptyString
    = base ++ "/" ++ base ++ ".css".
Proof.
  intros d run base.
  refine (@main_archive (Mock.platform_of Mock.good) (MockZip.library MockZip.name_limit)
            MockZip.args (Mock.start Mock.good) d (snd (fst run)) (snd run) _).
  vm_compute. reflexivity.
Defined.

(** ** The exceptions of [download_font_files] *)

Lemma fetch_format_raise_iff {P : platform} family subsets base w fmt l
    (s : state P) e s' :
  fetch_format family subsets base w fmt l s = (Raise e, s') <->
  iteration_failure family subsets w fmt s e s'.
Proof.
  rewrite fetch_format_eq. split.
  - destruct (http_get P _ (world s)) as [[r|msg] wd] eqn:Hcss.
    2: { intros H. inversion H; subst. now apply css_request_raises. }
    destruct (is_failure_status (r_status_code r)) eqn:Hok.
    { intros H. inversion H; subst.
      apply upstream_fails. now apply css_status_failure. }
    destruct (finditer FONT_URL_RE (r_text r)) as [|m [|m' ms]] eqn:Hm.
    1, 3: intros H; inversion H; subst; apply upstream_fails;
      apply pattern_failure; try assumption; rewrite Hm; simpl; lia.
    cbv zeta.
    destruct (http_get P _ wd) as [[r'|msg] wd'] eqn:Hfont.
    2: { intros H. inversion H; subst. eapply font_request_raises; eassumption. }
    destruct (is_failure_status (r_status_code r')) eqn:Hok'.
    { intros H. inversion H; subst.
      apply upstream_fails. eapply font_status_failure; eassumption. }
    destruct (contains_char "." (group1 m (r_text r))) eqn:Hdot.
    + apply (local_filename_total_iff base w) in Hdot. destruct Hdot as [name ->].
      discriminate.
    + rewrite (local_filename_dotless base w _ Hdot).
      intros H. inversion H; subst. eapply no_extension; eassumption.
  - intros H.
    destruct H as [msg wd Hcss | e s' Hup | r wd m msg wd' Hcss Hok Hm Hfont
                  | r wd m r' wd' Hcss Hok Hm Hfont Hok' Hdot].
    + now rewrite Hcss.
    + rewrite <- (fetch_format_eq family subsets base w fmt l s).
      now apply upstream_failure_raises.
    + rewrite Hcss, Hok, Hm. cbv zeta. now rewrite Hfont.
    + rewrite Hcss, Hok, Hm. cbv zeta. rewrite Hfont, Hok'.
      now rewrite (local_filename_dotless base w _ Hdot).
Qed.

(** [download_font_files] ends with an exception exactly in these cases:
    the run arrives at an iteration of the inner loop in which a request
    raises, a status is a failure, the pattern does not match exactly once
    or the font URL has no dot (the [IndexError] of line 77); or line 85
    raises because the template compiler rejects a [src] declaration that
    holds a backslash.  So [css_part] is never read before it is bound, and
    no call of [format] fails. *)
Theorem exceptions_of_download :
  forall (P : platform) family weights subsets italic (s0 : state P) e s',
    (download_font_files family weights subsets italic s0 = (Raise e, s')
     <->
     (exists w fmt l s,
         arrives_at family weights subsets italic s0 w fmt l s /\
         iteration_failure family subsets w fmt s e s') \/
     template_failure family weights subsets italic s0 e s') /\
    (download_font_files family weights subsets italic s0 = (Raise e, s') ->
     may_leave e = true).
Proof.
  intros P family weights subsets italic s0 e s'.
  assert (Hiff :
    download_font_files family weights subsets italic s0 = (Raise e, s')
    <->
    (exists w fmt l s,
        arrives_at family weights subsets italic s0 w fmt l s /\
        iteration_failure family subsets w fmt s e s') \/
    template_failure family weights subsets italic s0 e s').
  { split.
    - rewrite download_font_files_eq. cbv zeta.
      destruct (for_each _ _ initial_locals s0) as [[l|e1] s1] eqn:E; [discriminate |].
      intros H. inversion H; subst e1 s1. clear H.
      apply for_each_raise_inv in E.
      destruct E as (ws1 & w & ws2 & lw & sw & Hw & Hrun & Hbody).
      rewrite process_weight_eq in Hbody.
      destruct (for_each FONT_FORMATS _ (start_weight lw) sw) as [[l1|e1] s1] eqn:E1.
      + right. pose proof E1 as E1'. apply formats_loop_ok_inv in E1'.
        destruct E1' as (kv1 & kv2 & t & _ & _ & Hl1).
        assert (Hcp : css_part l1 = Some t) by (now rewrite Hl1).
        rewrite Hcp in Hbody.
        destruct (re_sub P FONT_URL_RE _ t) as [out|e1] eqn:Es; [discriminate |].
        inversion Hbody; subst e1 s1. unfold re_sub in Es.
        destruct (contains_char "\" (Spec.src_text (font_format_filenames l1))) eqn:Hb;
          [| discriminate].
        destruct (compile_repl P (Spec.src_text (font_format_filenames l1)))
          as [f|err] eqn:Hc; [discriminate |].
        inversion Es; subst e.
        exists ws1, w, ws2, lw, sw, l1, err. repeat split; assumption.
      + inversion Hbody; subst e1 s1. left.
        apply for_each_raise_inv in E1.
        destruct E1 as (fs1 & fmt & fs2 & l1 & s1 & Hf & Hin & Hfetch).
        exists w, fmt, l1, s1. split; [| now apply fetch_format_raise_iff in Hfetch].
        exists ws1, ws2, fs1, fs2, lw, sw. repeat split; try assumption.
        exists (Spec.base_filename family subsets).
        repeat split; try assumption. apply get_base_filename_ok.
    - intros [(w & fmt & l & s & Harr & Hfail) | Htpl].
      + eapply fetch_raise_propagates; [exact Harr |].
        now apply fetch_format_raise_iff.
      + destruct Htpl as (ws1 & w & ws2 & lw & sw & l1 & err & Hw & Hrun & Hin & Hb & Hc & ->).
        rewrite download_font_files_eq. cbv zeta. rewrite Hw.
        erewrite for_each_raise; [reflexivity | exact Hrun |].
        rewrite process_weight_eq, Hin.
        pose proof Hin as Hin'. apply formats_loop_ok_inv in Hin'.
        destruct Hin' as (kv1 & kv2 & t & _ & _ & Hl1).
        assert (Hcp : css_part l1 = Some t) by (now rewrite Hl1).
        rewrite Hcp. unfold re_sub. now rewrite Hb, Hc. }
  split; [exact Hiff |].
  intros H. apply Hiff in H.
  destruct H as [(w & fmt & l & s & _ & Hfail) | Htpl].
  - destruct Hfail as [| e s' Hup | |]; try reflexivity.
    destruct Hup; reflexivity.
  - destruct Htpl as (ws1 & w & ws2 & lw & sw & l1 & err & _ & _ & _ & _ & _ & ->).
    destruct err; reflexivity.
Qed.

Lemma exceptions_of_download_witness :
  may_leave (HTTPError 404 "https://fonts.googleapis.com/css?n=0") = true.
Proof.
  refine (proj2 (exceptions_of_download (P := Mock.platform_of Mock.css_404)
                   "Open Sans" ["700"] ["latin"] true (Mock.start Mock.css_404)
                   (HTTPError 404 "https://fonts.googleapis.com/css?n=0")
                   {| world := 1 : World (Mock.platform_of Mock.css_404);
                      stderr := [] |}) _).
  vm_compute. reflexivity.
Defined.

(** ** More on the base file name *)

Lemma lower_char_idem (c : ascii) : lower_char (lower_char c) = lower_char c.
Proof. destruct c as [[] [] [] [] [] [] [] []]; reflexivity. Qed.

Lemma lower_char_space (c : ascii) :
  Ascii.eqb (lower_char c) " " = Ascii.eqb c " ".
Proof. destruct c as [[] [] [] [] [] [] [] []]; reflexivity. Qed.

Lemma family_part_lower (family : string) :
  Spec.family_part (lower family) = Spec.family_part family.
Proof.
  induction family as [|c f IH]; simpl; [reflexivity |].
  now rewrite lower_char_idem, IH.
Qed.

Lemma family_part_replace (family : string) :
  Spec.family_part (replace " " "_" family) = Spec.family_part family.
Proof.
  induction family as [|c f IH]; simpl; [reflexivity |].
  rewrite IH. f_equal.
  destruct (Ascii.eqb_spec c " ") as [->|Hne]; [reflexivity | reflexivity].
Qed.

Lemma family_part_no_space (family : string) :
  contains_char " " (Spec.family_part family) = false.
Proof.
  induction family as [|c f IH]; simpl; [reflexivity |].
  rewrite IH, orb_false_r.
  destruct (Ascii.eqb (lower_char c) " ") eqn:E; [reflexivity | exact E].
Qed.

Lemma family_part_lowered (family : string) :
  lower (Spec.family_part family) = Spec.family_part family.
Proof.
  induction family as [|c f IH]; simpl; [reflexivity |].
  rewrite IH. f_equal.
  destruct (Ascii.eqb (lower_char c) " "); [reflexivity | apply lower_char_idem].
Qed.

Lemma contains_char_subsets (c : ascii) (subsets : list string) :
  c <> "_"%char ->
  Forall (fun s => contains_char c s = false) subsets ->
  contains_char c (Spec.subsets_part subsets) = false.
Proof.
  intros Hc. induction 1 as [|s rest Hs Hrest IH]; [reflexivity |].
  destruct rest as [|s' rest']; [exact Hs |].
  change (Spec.subsets_part (s :: s' :: rest'))
    with (s ++ "_" ++ Spec.subsets_part (s' :: rest')).
  rewrite !contains_char_append, Hs, IH.
  change (contains_char c "_") with (Ascii.eqb "_" c || false).
  assert (Hne : Ascii.eqb "_" c = false)
    by (apply Ascii.eqb_neq; intros Heq; now elim Hc).
  now rewrite Hne.
Qed.

(** The part of the base file name that comes from the family is in lower
    case and holds no space; when no subset holds a space, the whole base
    file name holds none. *)
Theorem base_filename_shape :
  forall (family : string) (subsets : list string),
  exists fam,
    get_base_filename family subsets = Ok (fam ++ "-" ++ join "_" subsets) /\
    lower fam = fam /\
    contains_char " " fam = false /\
    (Forall (fun s => contains_char " " s = false) subsets ->
     contains_char " " (fam ++ "-" ++ join "_" subsets) = false).
Proof.
  intros family subsets. exists (Spec.family_part family).
  split; [rewrite get_base_filename_ok, join_subsets; reflexivity |].
  split; [apply family_part_lowered |].
  split; [apply family_part_no_space |].
  intros H. rewrite join_subsets, !contains_char_append, family_part_no_space.
  rewrite contains_char_subsets; [reflexivity | discriminate | assumption].
Qed.

Lemma base_filename_shape_witness :
  exists fam,
    get_base_filename "Open Sans" ["latin"; "latin-ext"]
    = Ok (fam ++ "-" ++ join "_" ["latin"; "latin-ext"]) /\
    lower fam = fam /\
    contains_char " " fam = false /\
    contains_char " " (fam ++ "-" ++ join "_" ["latin"; "latin-ext"]) = false.
Proof.
  destruct (base_filename_shape "Open Sans" ["latin"; "latin-ext"])
    as (fam & H1 & H2 & H3 & H4).
  exists fam. repeat split; try assumption.
  apply H4. repeat constructor.
Defined.

(** The base file name does not tell the case of the family nor a space
    from an underscore: a family, its lower case and the family with
    underscores for spaces all give the same name. *)
Theorem base_filename_insensitive :
  forall (family : string) (subsets : list string),
    get_base_filename (lower family) subsets = get_base_filename family subsets /\
    get_base_filename (replace " " "_" family) subsets = get_base_filename family subsets.
Proof.
  intros family subsets. rewrite !get_base_filename_ok. unfold Spec.base_filename.
  now rewrite family_part_lower, family_part_replace.
Qed.

(** ** The order of the keys *)

Lemma stored_key {P : platform} base ws stored :
  Forall2 (weight_stores (P := P) base) ws stored ->
  forall k, In k (map fst (concat stored)) ->
            exists w ext, In w ws /\ k = font_key base w ext.
Proof.
  induction 1 as [|w per ws stored Hper _ IH]; intros k; simpl; [tauto |].
  rewrite map_app. intros H. apply in_app_or in H. destruct H as [H | H].
  - destruct Hper as (kv1 & kv2 & Hd1 & Hd2 & ->). simpl in H.
    apply downloaded_key in Hd1. destruct Hd1 as [e1 He1].
    apply downloaded_key in Hd2. destruct Hd2 as [e2 He2].
    destruct H as [<- | [<- | []]].
    + exists w, e1. split; [now left | assumption].
    + exists w, e2. split; [now left | assumption].
  - apply IH in H. destruct H as (w' & ext & Hin & ->).
    exists w', ext. split; [now right | reflexivity].
Qed.

Lemma stored_NoDup {P : platform} base ws stored :
  Forall2 (weight_stores (P := P) base) ws stored ->
  NoDup (map weight_label ws) ->
  Forall (fun w => contains_char "." (weight_label w) = false) ws ->
  Forall (fun per => NoDup (map fst per)) stored ->
  NoDup (map fst (concat stored)).
Proof.
  induction 1 as [|w per ws stored Hper Hrest IH]; intros Hlab Hdot Hper2; simpl;
    [constructor |].
  inversion Hlab as [|x xs Hnotin Hlab']; subst.
  inversion Hdot as [|x xs Hw Hws]; subst.
  inversion Hper2 as [|x xs Hnd Hper2']; subst.
  rewrite map_app. apply NoDup_app; [assumption | now apply IH |].
  intros k Hk1 Hk2.
  destruct Hper as (kv1 & kv2 & Hd1 & Hd2 & ->).
  apply downloaded_key in Hd1. destruct Hd1 as [e1 He1].
  apply downloaded_key in Hd2. destruct Hd2 as [e2 He2].
  apply (stored_key Hrest) in Hk2. destruct Hk2 as (w' & ext & Hin & Hk).
  assert (Hkey : exists e, k = font_key base w e).
  { simpl in Hk1. destruct Hk1 as [<- | [<- | []]]; eauto. }
  destruct Hkey as [e Hke]. rewrite Hke in Hk.
  apply font_key_inj in Hk; try assumption.
  - destruct Hk as [Hk _]. apply Hnotin. rewrite Hk. now apply in_map.
  - now apply (proj1 (Forall_forall _ _) Hws).
Qed.

Lemma stored_length {P : platform} base ws stored :
  Forall2 (weight_stores (P := P) base) ws stored ->
  List.length (concat stored) = 2 * List.length ws.
Proof.
  induction 1 as [|w per ws stored Hper _ IH]; simpl; [reflexivity |].
  destruct Hper as (kv1 & kv2 & _ & _ & ->). rewrite length_app, IH. simpl. lia.
Qed.

(** C7, as written, fails: when the two font URLs of a weight have the same
    extension the weight stores the same name twice, and the bundle has one
    font file for it, not two. *)
Lemma one_key_for_two_fonts :
  exists bundle,
    fst (download_font_files "Open Sans" ["400"] ["latin"] false
           (Mock.start Mock.same_extension)) = Ok bundle /\
    keys bundle = ["open_sans-latin-400.ttf"; "open_sans-latin.css"] /\
    List.length (keys bundle) <> 2 * 1 + 1.
Proof.
  eexists. split; [vm_compute; reflexivity |].
  split; [reflexivity | discriminate].
Qed.

(** C7, amended: when [download_font_files] returns, the mapping is the
    result of storing, weight after weight in the order of the loop, the
    file for woff then the file for woff2, and last of all the combined CSS
    under "<base>.css".  A name stored again keeps its place: the keys stand
    in the order in which they were first stored, the key of the CSS is the
    last one, and no key occurs twice.  When the stored names are pairwise
    distinct, as they are for distinct weights made of digits whose two font
    URLs have different extensions, every weight has its two keys before
    those of the next weight. *)
Theorem bundle_insertion_order :
  forall (P : platform) family weights subsets italic (s0 : state P) bundle s',
    download_font_files family weights subsets italic s0 = (Ok bundle, s') ->
    let base := Spec.base_filename family subsets in
    exists (stored : list (list (string * list byte))) (snippets : list string),
      Forall2 (weight_stores (P := P) base) (expand_weights weights italic) stored /\
      List.length snippets = List.length (expand_weights weights italic) /\
      bundle = store_all [] (concat stored ++
                             [(base ++ ".css", encode_utf8 (join newline snippets))]) /\
      keys bundle
      = (Spec.keys_after [] (map fst (concat stored)) ++ [(base ++ ".css")%string])%list /\
      NoDup (keys bundle) /\
      (NoDup (map fst (concat stored)) ->
       keys bundle = (map fst (concat stored) ++ [(base ++ ".css")%string])%list) /\
      (NoDup weights ->
       Forall (fun w => all_digits w = true) weights ->
       Forall (fun per => NoDup (map fst per)) stored ->
       keys bundle = (map fst (concat stored) ++ [(base ++ ".css")%string])%list /\
       List.length (keys bundle) = 2 * List.length (expand_weights weights italic) + 1).
Proof.
  intros P family weights subsets italic s0 bundle s' H base.
  rewrite download_font_files_eq in H. cbv zeta in H. fold base in H.
  destruct (for_each _ _ initial_locals s0) as [[l|e] s] eqn:E; [| discriminate].
  inversion H; subst bundle s'. clear H.
  apply weights_loop_ok_inv in E.
  destruct E as (stored & snippets & HF & Hfiles & Hcss & Hlen).
  cbn [initial_locals files css app] in Hfiles, Hcss.
  exists stored, snippets.
  assert (Hbundle : dict_set (files l) (base ++ ".css") (encode_utf8 (join newline (css l)))
                    = store_all [] (concat stored ++
                        [(base ++ ".css", encode_utf8 (join newline snippets))])).
  { rewrite store_all_app, <- Hfiles, Hcss. reflexivity. }
  assert (Hkeys : keys (dict_set (files l) (base ++ ".css")
                                 (encode_utf8 (join newline (css l))))
                  = (Spec.keys_after [] (map fst (concat stored)) ++ [(base ++ ".css")%string])%list).
  { rewrite Hbundle, keys_store_all, map_app. cbn [map fst keys].
    apply keys_after_last; [intros [] | now apply (weight_stores_keys HF)]. }
  assert (Hfresh : NoDup (map fst (concat stored)) ->
                   keys (dict_set (files l) (base ++ ".css")
                                  (encode_utf8 (join newline (css l))))
                   = (map fst (concat stored) ++ [(base ++ ".css")%string])%list).
  { intros Hnd. rewrite Hkeys. now rewrite (keys_after_fresh _ [] Hnd). }
  repeat split; try assumption.
  - rewrite Hbundle, keys_store_all. apply keys_after_NoDup. constructor.
  - apply Hfresh. destruct (expanded_labels italic H H0) as [Hlab Hdot].
    now apply (stored_NoDup HF).
  - rewrite Hfresh.
    + rewrite length_app, length_map, (stored_length HF). simpl. lia.
    + destruct (expanded_labels italic H H0) as [Hlab Hdot].
      now apply (stored_NoDup HF).
Qed.

Lemma bundle_insertion_order_witness :
  exists (stored : list (list (string * list byte))) (snippets : list string),
    Forall2 (weight_stores (P := Mock.platform_of Mock.good) "open_sans-latin") ["700"]
      stored /\
    List.length snippets = 1 /\
    Mock.good_bundle
    = store_all [] (concat stored ++
                    [("open_sans-latin.css", encode_utf8 (join newline snippets))]) /\
    keys Mock.good_bundle
    = (Spec.keys_after [] (map fst (concat stored)) ++ ["open_sans-latin.css"])%list /\
    NoDup (keys Mock.good_bundle) /\
    (NoDup (map fst (concat stored)) ->
     keys Mock.good_bundle = (map fst (concat stored) ++ ["open_sans-latin.css"])%list) /\
    (NoDup ["700"] ->
     Forall (fun w => all_digits w = true) ["700"] ->
     Forall (fun per => NoDup (map fst per)) stored ->
     keys Mock.good_bundle = (map fst (concat stored) ++ ["open_sans-latin.css"])%list /\
     List.length (keys Mock.good_bundle) = 2 * 1 + 1).
Proof.
  refine (bundle_insertion_order (P := Mock.platform_of Mock.good)
            "Open Sans" ["700"] ["latin"] false (Mock.start Mock.good)
            (bundle := Mock.good_bundle) (s' := Mock.good_final) _).
  vm_compute. reflexivity.
Defined.
